(** * SafePublish: a guard around PubSubClient's publish

    Shallow embedding of [src/SafePublish.h] and the properties of its
    operations.  The target is the ESP32 (ILP32): [int] is a 32-bit
    two's-complement integer and [unsigned long] a 32-bit unsigned one.
    Machine integers are carried as [Z] with the wrap-around written out. *)

From Stdlib Require Import Strings.String Strings.Byte.
From Stdlib Require Import ZArith NArith List Lia Bool.
Import ListNotations.
Open Scope Z_scope.

(** ** Machine integers of the target *)

Module CInt.

Definition INT_MIN : Z := - 2 ^ 31.
Definition INT_MAX : Z := 2 ^ 31 - 1.
Definition ULONG_MAX : Z := 2 ^ 32 - 1.
Definition UINT16_MAX : Z := 2 ^ 16 - 1.

(** Conversion of a value to [int] (reduction modulo 2^32 into the
    signed range). *)
Definition to_int (z : Z) : Z := (z + 2 ^ 31) mod 2 ^ 32 - 2 ^ 31.

(** Conversion to [unsigned long]. *)
Definition to_ulong (z : Z) : Z := z mod 2 ^ 32.

(** Conversion to [uint16_t]. *)
Definition to_uint16 (z : Z) : Z := z mod 2 ^ 16.

Definition int_add (a b : Z) : Z := to_int (a + b).
Definition int_sub (a b : Z) : Z := to_int (a - b).
Definition int_mul (a b : Z) : Z := to_int (a * b).
Definition ulong_add (a b : Z) : Z := to_ulong (a + b).

Definition in_int (z : Z) : Prop := INT_MIN <= z <= INT_MAX.
Definition in_ulong (z : Z) : Prop := 0 <= z <= ULONG_MAX.

End CInt.
Import CInt.

(** ** C strings *)

(** A [const char*] is the sequence of bytes found at the pointer; the
    string it denotes ends before the first NUL byte (or at the end of the
    sequence, where the terminator stands). *)
Definition cstr : Type := list byte.

Fixpoint strlen (s : cstr) : nat :=
  match s with
  | [] => 0%nat
  | b :: rest => if Byte.eqb b x00 then 0%nat else S (strlen rest)
  end.

(** The Arduino [String] class is not part of the repository: the overload
    of [publish] only uses its [c_str()] accessor. *)
Module WString.
Class String (S : Type) : Type := { c_str : S -> cstr }.
End WString.

(** ** The wrapped client *)

(** [PubSubClient] is an external collaborator.  The guard uses four of its
    methods.  [connected], [publish] and [setBufferSize] may change the
    client; [getBufferSize] reads the configured size, a value that fits in
    an [int] (PubSubClient declares it [uint16_t]). *)
Module PubSubClient.
Class Client (C : Type) : Type := {
  connected : C -> bool * C;
  publish : cstr -> cstr -> C -> bool * C;
  getBufferSize : C -> Z;
  setBufferSize : Z -> C -> bool * C;
  getBufferSize_in_int : forall c, in_int (getBufferSize c)
}.
End PubSubClient.

(** ** Observable interactions *)

(** Arguments of a [Serial.printf] call.  [ArgRate num den] is the value of
    the expression [(float)num / den * 100] of [printStats]: the division
    is recorded with its two operands. *)
Inductive PrintfArg : Type :=
| ArgStr (s : cstr)
| ArgInt (n : Z)
| ArgULong (n : Z)
| ArgRate (numerator divisor : Z).

(** What a call of the guard does to the outside, in program order: calls
    on the wrapped client and calls on [Serial]. *)
Inductive Event : Type :=
| CallGetBufferSize
| CallConnected
| CallPublish (topic payload : cstr)
| CallSetBufferSize (size : Z)
| SerialPrintln (line : string)
| SerialPrintf (fmt : string) (args : list PrintfArg).

Definition is_CallPublish (e : Event) : bool :=
  match e with CallPublish _ _ => true | _ => false end.

Definition is_CallSetBufferSize (e : Event) : bool :=
  match e with CallSetBufferSize _ => true | _ => false end.

Definition is_client_call (e : Event) : bool :=
  match e with
  | CallGetBufferSize | CallConnected | CallPublish _ _ | CallSetBufferSize _ => true
  | SerialPrintln _ | SerialPrintf _ _ => false
  end.

Definition client_calls (evs : list Event) : list Event :=
  filter is_client_call evs.

(** Divisors of the divisions performed in a run. *)
Definition arg_divisors (a : PrintfArg) : list Z :=
  match a with ArgRate _ d => [d] | _ => [] end.

Definition event_divisors (e : Event) : list Z :=
  match e with
  | SerialPrintf _ args => flat_map arg_divisors args
  | _ => []
  end.

Definition divisors (evs : list Event) : list Z := flat_map event_divisors evs.

(** ** The sizing rule *)

Definition MQTT_OVERHEAD : Z := 10.

(** The loop [while (p < n && p < 8192) p *= 2;].  [None] when the fuel
    runs out before the loop exits. *)
Fixpoint nextPowerOf2_loop (fuel : nat) (n p : Z) : option Z :=
  match fuel with
  | O => None
  | S fuel' =>
      if (p <? n) && (p <? 8192)
      then nextPowerOf2_loop fuel' n (int_mul p 2)
      else Some p
  end.

(** Six doublings lead from 128 to 8192; the seventh test leaves the loop. *)
Definition nextPowerOf2_fuel : nat := 7.

Definition nextPowerOf2 (n : Z) : Z :=
  match nextPowerOf2_loop nextPowerOf2_fuel n 128 with
  | Some p => p
  | None => 0
  end.

Definition is_power_of_two (z : Z) : Prop := exists k : Z, 0 <= k /\ z = 2 ^ k.

(** ** The guard *)

(** The object: the (referenced) client and the two counters. *)
Record SafePublish (C : Type) : Type := mkSafePublish {
  _client : C;
  _successCount : Z;
  _failCount : Z
}.
Arguments mkSafePublish {C} _ _ _.
Arguments _client {C} _.
Arguments _successCount {C} _.
Arguments _failCount {C} _.

(** Counters hold [unsigned long] values. *)
Definition counters_ok {C : Type} (s : SafePublish C) : Prop :=
  in_ulong (_successCount s) /\ in_ulong (_failCount s).

(** [int x = strlen(s);] *)
Definition strlen_int (s : cstr) : Z := to_int (Z.of_nat (strlen s)).

(** [topicLen + payloadLen + MQTT_OVERHEAD] as [publish] computes it. *)
Definition totalSize (topic payload : cstr) : Z :=
  int_add (int_add (strlen_int topic) (strlen_int payload)) MQTT_OVERHEAD.

(** [maxTopicLen + maxPayloadLen + MQTT_OVERHEAD + 50] as
    [autoConfigureBuffer] computes it. *)
Definition needed (maxTopicLen maxPayloadLen : Z) : Z :=
  int_add (int_add (int_add maxTopicLen maxPayloadLen) MQTT_OVERHEAD) 50.

Section Guard.

Context {C : Type} {client : PubSubClient.Client C}.

(** A method call: result, object after the call, and what the call did
    to the outside. *)
Definition M (A : Type) : Type := SafePublish C -> A * SafePublish C * list Event.

Definition ret {A : Type} (a : A) : M A := fun s => (a, s, []).

Definition bind {A B : Type} (m : M A) (k : A -> M B) : M B :=
  fun s =>
    let '(a, s1, e1) := m s in
    let '(b, s2, e2) := k a s1 in
    (b, s2, e1 ++ e2).

Notation "x <- m ;; k" := (bind m (fun x => k))
  (at level 61, m at next level, right associativity).
Notation "m ;; k" := (bind m (fun _ => k))
  (at level 61, right associativity).

Definition result {A : Type} (r : A * SafePublish C * list Event) : A := fst (fst r).
Definition after {A : Type} (r : A * SafePublish C * list Event) : SafePublish C :=
  snd (fst r).
Definition events {A : Type} (r : A * SafePublish C * list Event) : list Event := snd r.

(** *** Calls on the client *)

Definition with_client (c : C) (s : SafePublish C) : SafePublish C :=
  mkSafePublish c (_successCount s) (_failCount s).

Definition client_getBufferSize : M Z :=
  fun s => (PubSubClient.getBufferSize (_client s), s, [CallGetBufferSize]).

Definition client_connected : M bool :=
  fun s =>
    let '(b, c) := PubSubClient.connected (_client s) in
    (b, with_client c s, [CallConnected]).

Definition client_publish (topic payload : cstr) : M bool :=
  fun s =>
    let '(b, c) := PubSubClient.publish topic payload (_client s) in
    (b, with_client c s, [CallPublish topic payload]).

Definition client_setBufferSize (size : Z) : M bool :=
  fun s =>
    let '(b, c) := PubSubClient.setBufferSize size (_client s) in
    (b, with_client c s, [CallSetBufferSize size]).

(** *** Calls on Serial *)

Definition Serial_println (line : string) : M unit :=
  fun s => (tt, s, [SerialPrintln line]).

Definition Serial_printf (fmt : string) (args : list PrintfArg) : M unit :=
  fun s => (tt, s, [SerialPrintf fmt args]).

(** *** The counters *)

Definition read {A : Type} (field : SafePublish C -> A) : M A :=
  fun s => (field s, s, []).

(** [_successCount++] *)
Definition incr_successCount : M unit :=
  fun s => (tt, mkSafePublish (_client s) (ulong_add (_successCount s) 1) (_failCount s), []).

(** [_failCount++] *)
Definition incr_failCount : M unit :=
  fun s => (tt, mkSafePublish (_client s) (_successCount s) (ulong_add (_failCount s) 1), []).

(** *** The methods *)

(** [SafePublish(PubSubClient &client)] *)
Definition new (c : C) : SafePublish C := mkSafePublish c 0 0.

Definition publish (topic payload : cstr) : M bool :=
  let topicLen := strlen_int topic in
  let payloadLen := strlen_int payload in
  let totalSize := int_add (int_add topicLen payloadLen) MQTT_OVERHEAD in
  reported <- client_getBufferSize ;;
  let bufferSize := to_int reported in
  if totalSize >? bufferSize then
    Serial_println EmptyString ;;
    Serial_println "╔══════════════════════════════════════════╗" ;;
    Serial_println "║  ⚠️  MQTT BUFFER OVERFLOW DETECTED      ║" ;;
    Serial_println "╚══════════════════════════════════════════╝" ;;
    Serial_printf "  Topic:      %s (%d bytes)\n" [ArgStr topic; ArgInt topicLen] ;;
    Serial_printf "  Payload:    %d bytes\n" [ArgInt payloadLen] ;;
    Serial_printf "  Total:      %d bytes\n" [ArgInt totalSize] ;;
    Serial_printf "  Buffer:     %d bytes\n" [ArgInt bufferSize] ;;
    Serial_printf "  Overflow:   %d bytes over limit!\n"
                  [ArgInt (int_sub totalSize bufferSize)] ;;
    Serial_println EmptyString ;;
    Serial_printf "  FIX: Add this to setup():\n" [] ;;
    Serial_printf "  mqtt_client.setBufferSize(%d);\n"
                  [ArgInt (nextPowerOf2 (int_add totalSize 50))] ;;
    Serial_println EmptyString ;;
    incr_failCount ;;
    ret false
  else
    isConnected <- client_connected ;;
    if negb isConnected then
      Serial_printf "[MQTT] Publish failed: not connected (topic=%s)\n" [ArgStr topic] ;;
      incr_failCount ;;
      ret false
    else
      sent <- client_publish topic payload ;;
      (if sent : bool then
         incr_successCount ;;
         Serial_printf "[MQTT] ✅ Published: %s (%d bytes)\n"
                       [ArgStr topic; ArgInt payloadLen]
       else
         incr_failCount ;;
         Serial_printf "[MQTT] ❌ Failed: %s (%d bytes, buffer=%d)\n"
                       [ArgStr topic; ArgInt totalSize; ArgInt bufferSize]) ;;
      ret sent.

(** [bool publish(const String &topic, const String &payload)] *)
Definition publish_String {S : Type} {str : WString.String S}
    (topic payload : S) : M bool :=
  r <- publish (WString.c_str topic) (WString.c_str payload) ;;
  ret r.

Definition autoConfigureBuffer (maxTopicLen maxPayloadLen : Z) : M Z :=
  let needed :=
    int_add (int_add (int_add maxTopicLen maxPayloadLen) MQTT_OVERHEAD) 50 in
  let bufSize := nextPowerOf2 needed in
  client_setBufferSize (to_uint16 bufSize) ;;
  Serial_printf "[MQTT] Buffer auto-configured: %d bytes (needed %d)\n"
                [ArgInt bufSize; ArgInt needed] ;;
  ret bufSize.

Definition printStats : M unit :=
  Serial_println "── MQTT Publish Stats ──" ;;
  successCount <- read _successCount ;;
  Serial_printf "  Success: %lu\n" [ArgULong successCount] ;;
  failCount <- read _failCount ;;
  Serial_printf "  Failed:  %lu\n" [ArgULong failCount] ;;
  if failCount >? 0 then
    Serial_printf "  ⚠️  %.1f%% failure rate\n"
                  [ArgRate failCount (ulong_add successCount failCount)]
  else
    ret tt.

Definition getSuccessCount : M Z := read _successCount.
Definition getFailCount : M Z := read _failCount.

Definition resetStats : M unit :=
  fun s => (tt, mkSafePublish (_client s) 0 0, []).

(** *** Sequences of operations *)

Section Operations.

Context {S : Type} {str : WString.String S}.

Inductive Op : Type :=
| OpPublish (topic payload : cstr)
| OpPublishString (topic payload : S)
| OpAutoConfigureBuffer (maxTopicLen maxPayloadLen : Z)
| OpPrintStats
| OpGetSuccessCount
| OpGetFailCount
| OpResetStats.

Definition is_publish (op : Op) : bool :=
  match op with OpPublish _ _ | OpPublishString _ _ => true | _ => false end.

Definition is_resetStats (op : Op) : bool :=
  match op with OpResetStats => true | _ => false end.

Definition is_autoConfigureBuffer (op : Op) : bool :=
  match op with OpAutoConfigureBuffer _ _ => true | _ => false end.

Definition forget {A : Type} (m : M A) : M unit := _ <- m ;; ret tt.

Definition exec (op : Op) : M unit :=
  match op with
  | OpPublish topic payload => forget (publish topic payload)
  | OpPublishString topic payload => forget (publish_String topic payload)
  | OpAutoConfigureBuffer a b => forget (autoConfigureBuffer a b)
  | OpPrintStats => printStats
  | OpGetSuccessCount => forget getSuccessCount
  | OpGetFailCount => forget getFailCount
  | OpResetStats => resetStats
  end.

Fixpoint run (ops : list Op) : M unit :=
  match ops with
  | [] => ret tt
  | op :: rest => exec op ;; run rest
  end.

End Operations.

End Guard.

Arguments Op : clear implicits.

(** * Properties *)

(** ** Machine integers *)

Lemma to_int_id (z : Z) : in_int z -> to_int z = z.
Proof.
  unfold in_int, INT_MIN, INT_MAX, to_int. intros Hz.
  rewrite Z.mod_small by lia. lia.
Qed.

Lemma to_int_in_int (z : Z) : in_int (to_int z).
Proof.
  unfold in_int, INT_MIN, INT_MAX, to_int.
  pose proof (Z.mod_pos_bound (z + 2 ^ 31) (2 ^ 32) ltac:(lia)). lia.
Qed.

Lemma to_uint16_id (z : Z) : 0 <= z <= UINT16_MAX -> to_uint16 z = z.
Proof.
  unfold UINT16_MAX, to_uint16. intros Hz. apply Z.mod_small. lia.
Qed.

Lemma to_uint16_in_int (z : Z) : in_int (to_uint16 z).
Proof.
  unfold in_int, INT_MIN, INT_MAX, to_uint16.
  pose proof (Z.mod_pos_bound z (2 ^ 16) ltac:(lia)). lia.
Qed.

Lemma to_ulong_in_ulong (z : Z) : in_ulong (to_ulong z).
Proof.
  unfold in_ulong, ULONG_MAX, to_ulong.
  pose proof (Z.mod_pos_bound z (2 ^ 32) ltac:(lia)). lia.
Qed.

Lemma ulong_add_in_ulong (a b : Z) : in_ulong (ulong_add a b).
Proof. apply to_ulong_in_ulong. Qed.

(** Below [ULONG_MAX] the increment of a counter is the successor; at
    [ULONG_MAX] it wraps to 0. *)
Lemma ulong_incr_small (a : Z) : 0 <= a < ULONG_MAX -> ulong_add a 1 = a + 1.
Proof.
  unfold ULONG_MAX, ulong_add, to_ulong. intros Ha. apply Z.mod_small. lia.
Qed.

Lemma ulong_incr_wrap : ulong_add ULONG_MAX 1 = 0.
Proof. reflexivity. Qed.

Lemma ulong_incr_cases (a : Z) :
  in_ulong a ->
  (a < ULONG_MAX /\ ulong_add a 1 = a + 1) \/ (a = ULONG_MAX /\ ulong_add a 1 = 0).
Proof.
  unfold in_ulong. intros Ha.
  destruct (Z.eq_dec a ULONG_MAX) as [-> | Hne].
  - right. split; [reflexivity | apply ulong_incr_wrap].
  - left. split; [lia | apply ulong_incr_small; lia].
Qed.

(** The sums of [publish] and [autoConfigureBuffer] are the mathematical
    ones as long as these fit in an [int]. *)
Lemma totalSize_exact (topic payload : cstr) :
  Z.of_nat (strlen topic) + Z.of_nat (strlen payload) + 10 <= INT_MAX ->
  totalSize topic payload = Z.of_nat (strlen topic) + Z.of_nat (strlen payload) + 10.
Proof.
  unfold totalSize, strlen_int, int_add, MQTT_OVERHEAD. intros H.
  assert (Ht : to_int (Z.of_nat (strlen topic)) = Z.of_nat (strlen topic))
    by (apply to_int_id; unfold in_int, INT_MIN, INT_MAX in *; lia).
  assert (Hp : to_int (Z.of_nat (strlen payload)) = Z.of_nat (strlen payload))
    by (apply to_int_id; unfold in_int, INT_MIN, INT_MAX in *; lia).
  rewrite Ht, Hp.
  rewrite (to_int_id (Z.of_nat (strlen topic) + Z.of_nat (strlen payload)))
    by (unfold in_int, INT_MIN, INT_MAX in *; lia).
  apply to_int_id. unfold in_int, INT_MIN, INT_MAX in *. lia.
Qed.

Lemma to_int_add_l (a b : Z) : to_int (to_int a + b) = to_int (a + b).
Proof.
  unfold to_int.
  replace ((a + 2 ^ 31) mod 2 ^ 32 - 2 ^ 31 + b + 2 ^ 31)
    with ((a + 2 ^ 31) mod 2 ^ 32 + b) by lia.
  rewrite Zplus_mod_idemp_l. do 2 f_equal. lia.
Qed.

Lemma needed_exact (maxTopicLen maxPayloadLen : Z) :
  in_int (maxTopicLen + maxPayloadLen + 10 + 50) ->
  needed maxTopicLen maxPayloadLen = maxTopicLen + maxPayloadLen + 10 + 50.
Proof.
  unfold needed, int_add, MQTT_OVERHEAD. intros H.
  rewrite to_int_add_l, <- Z.add_assoc, to_int_add_l, Z.add_assoc.
  apply to_int_id. exact H.
Qed.

(** ** The sizing rule *)

(** More fuel never changes a result the loop has produced. *)
Lemma nextPowerOf2_loop_more_fuel (fuel : nat) :
  forall n p r,
    nextPowerOf2_loop fuel n p = Some r ->
    nextPowerOf2_loop (S fuel) n p = Some r.
Proof.
  induction fuel as [| fuel IH]; intros n p r Hr.
  - discriminate Hr.
  - cbn [nextPowerOf2_loop] in Hr |- *.
    destruct ((p <? n) && (p <? 8192)).
    + apply IH in Hr. exact Hr.
    + exact Hr.
Qed.

Lemma nextPowerOf2_loop_fuel_le (fuel fuel' : nat) (n p r : Z) :
  (fuel <= fuel')%nat ->
  nextPowerOf2_loop fuel n p = Some r ->
  nextPowerOf2_loop fuel' n p = Some r.
Proof.
  induction 1 as [| m Hle IH]; intros Hr.
  - exact Hr.
  - apply nextPowerOf2_loop_more_fuel, IH, Hr.
Qed.

(** The value the loop leaves in [p], by the position of [n] among the
    powers of two it goes through. *)
Definition nextPowerOf2_table (n : Z) : Z :=
  if n <=? 128 then 128
  else if n <=? 256 then 256
  else if n <=? 512 then 512
  else if n <=? 1024 then 1024
  else if n <=? 2048 then 2048
  else if n <=? 4096 then 4096
  else 8192.

Ltac split_compare :=
  repeat (match goal with
          | |- context [?a <? ?b] => destruct (Z.ltb_spec a b)
          | |- context [?a <=? ?b] => destruct (Z.leb_spec a b)
          end; cbv beta iota; try lia).

(** The loop exits within the fuel given to it, for every [n]. *)
Lemma nextPowerOf2_loop_exits (n : Z) :
  nextPowerOf2_loop nextPowerOf2_fuel n 128 = Some (nextPowerOf2_table n).
Proof.
  unfold nextPowerOf2_fuel, nextPowerOf2_table.
  cbn [nextPowerOf2_loop].
  change (int_mul 128 2) with 256.
  change (int_mul 256 2) with 512.
  change (int_mul 512 2) with 1024.
  change (int_mul 1024 2) with 2048.
  change (int_mul 2048 2) with 4096.
  change (int_mul 4096 2) with 8192.
  change (128 <? 8192) with true. change (256 <? 8192) with true.
  change (512 <? 8192) with true. change (1024 <? 8192) with true.
  change (2048 <? 8192) with true. change (4096 <? 8192) with true.
  change (8192 <? 8192) with false.
  rewrite !andb_true_r, andb_false_r.
  split_compare; reflexivity.
Qed.

Lemma nextPowerOf2_eq_table (n : Z) : nextPowerOf2 n = nextPowerOf2_table n.
Proof. unfold nextPowerOf2. rewrite nextPowerOf2_loop_exits. reflexivity. Qed.

(** [nextPowerOf2] is the result of the loop for any fuel of at least 7. *)
Lemma nextPowerOf2_terminates (n : Z) (fuel : nat) :
  (nextPowerOf2_fuel <= fuel)%nat ->
  nextPowerOf2_loop fuel n 128 = Some (nextPowerOf2 n).
Proof.
  intros Hfuel. rewrite nextPowerOf2_eq_table.
  eapply nextPowerOf2_loop_fuel_le; [exact Hfuel | apply nextPowerOf2_loop_exits].
Qed.

Lemma nextPowerOf2_range (n : Z) : 128 <= nextPowerOf2 n <= 8192.
Proof.
  rewrite nextPowerOf2_eq_table. unfold nextPowerOf2_table. split_compare; lia.
Qed.

Lemma nextPowerOf2_power (n : Z) : is_power_of_two (nextPowerOf2 n).
Proof.
  rewrite nextPowerOf2_eq_table. unfold nextPowerOf2_table, is_power_of_two.
  split_compare;
    [ exists 7 | exists 8 | exists 9 | exists 10 | exists 11 | exists 12 | exists 13 ];
    split; (lia || reflexivity).
Qed.

Lemma nextPowerOf2_mono (n m : Z) : n <= m -> nextPowerOf2 n <= nextPowerOf2 m.
Proof.
  intros Hnm. rewrite !nextPowerOf2_eq_table. unfold nextPowerOf2_table.
  split_compare; lia.
Qed.

Lemma nextPowerOf2_cap (n : Z) : 8192 < n -> nextPowerOf2 n = 8192.
Proof.
  intros Hn. rewrite nextPowerOf2_eq_table. unfold nextPowerOf2_table.
  split_compare; lia.
Qed.

(** The result covers [n] unless the ceiling stopped the doubling. *)
Lemma nextPowerOf2_covers (n : Z) : n <= 8192 -> n <= nextPowerOf2 n.
Proof.
  intros Hn. rewrite nextPowerOf2_eq_table. unfold nextPowerOf2_table.
  split_compare; lia.
Qed.

Lemma nextPowerOf2_fits_uint16 (n : Z) : to_uint16 (nextPowerOf2 n) = nextPowerOf2 n.
Proof.
  apply to_uint16_id. pose proof (nextPowerOf2_range n). unfold UINT16_MAX. lia.
Qed.

(** C4.  [nextPowerOf2] is monotonically non-decreasing, returns a power of
    two between 128 and 8192 for every integer [n], and returns 8192 for
    every [n] above 8192.  The loop behind it exits for every [n]: with the
    seven units of fuel of the definition, or more, it yields that value. *)
Theorem nextPowerOf2_spec :
  forall n m : Z,
    nextPowerOf2_loop nextPowerOf2_fuel n 128 = Some (nextPowerOf2 n) /\
    (n <= m -> nextPowerOf2 n <= nextPowerOf2 m) /\
    is_power_of_two (nextPowerOf2 n) /\
    128 <= nextPowerOf2 n <= 8192 /\
    (n > 8192 -> nextPowerOf2 n = 8192).
Proof.
  intros n m. split; [| split; [| split; [| split]]].
  - apply nextPowerOf2_terminates. apply le_n.
  - apply nextPowerOf2_mono.
  - apply nextPowerOf2_power.
  - apply nextPowerOf2_range.
  - intros Hn. apply nextPowerOf2_cap. lia.
Qed.

(** ** Test doubles *)

(** A client with a configured buffer size, a connection flag, and a flag
    telling whether its [publish] succeeds.  [setBufferSize] refuses 0 as
    PubSubClient does. *)
Module Stub.

Record t : Type := mk { bufferSize : Z; isConnected : bool; accepts : bool }.

#[global] Instance client : PubSubClient.Client t := {|
  PubSubClient.connected c := (isConnected c, c);
  PubSubClient.publish _ _ c := (accepts c, c);
  PubSubClient.getBufferSize c := to_uint16 (bufferSize c);
  PubSubClient.setBufferSize size c :=
    if size =? 0 then (false, c) else (true, mk size (isConnected c) (accepts c));
  PubSubClient.getBufferSize_in_int c := to_uint16_in_int (bufferSize c)
|}.

(** A string object whose [c_str()] is its byte buffer. *)
#[global] Instance str : WString.String (list byte) := {| WString.c_str s := s |}.

End Stub.

(** Inputs of the scenarios: a one-byte topic, payloads of 300 and of
    100 bytes, fresh guards over clients of buffer size 256 and 512. *)
Definition topic_a : cstr := [x61].
Definition payload_300 : cstr := repeat x78 300.
Definition payload_100 : cstr := repeat x78 100.
Definition guard_256 : SafePublish Stub.t := new (Stub.mk 256 true true).
Definition guard_512 : SafePublish Stub.t := new (Stub.mk 512 true true).
Definition guard_512_offline : SafePublish Stub.t := new (Stub.mk 512 false true).

(** ** Traces *)

(** Looking for a client call in a trace, the calls on Serial can be left
    out. *)
Lemma existsb_client_calls (p : Event -> bool) :
  (forall e, p e = true -> is_client_call e = true) ->
  forall evs, existsb p evs = existsb p (client_calls evs).
Proof.
  intros Hp evs. unfold client_calls.
  induction evs as [| e evs IH]; [reflexivity |].
  cbn [existsb filter].
  destruct (is_client_call e) eqn:He.
  - cbn [existsb]. rewrite IH. reflexivity.
  - destruct (p e) eqn:Hpe.
    + apply Hp in Hpe. congruence.
    + exact IH.
Qed.

Lemma is_CallPublish_client_call (e : Event) :
  is_CallPublish e = true -> is_client_call e = true.
Proof. destruct e; cbn; congruence. Qed.

Lemma is_CallSetBufferSize_client_call (e : Event) :
  is_CallSetBufferSize e = true -> is_client_call e = true.
Proof. destruct e; cbn; congruence. Qed.

Lemma client_calls_app (e1 e2 : list Event) :
  client_calls (e1 ++ e2) = client_calls e1 ++ client_calls e2.
Proof. apply filter_app. Qed.

(** ** publish *)

Section PublishProperties.

Context {C : Type} {client : PubSubClient.Client C}.

Ltac enter_publish topic payload :=
  unfold totalSize in *;
  unfold publish, bind, client_getBufferSize;
  rewrite to_int_id by apply PubSubClient.getBufferSize_in_int.

Ltac eval_calls :=
  cbv beta iota zeta delta
    [Serial_println Serial_printf incr_failCount incr_successCount ret result after
     events fst snd app client_calls filter is_client_call negb with_client
     _client _successCount _failCount].

(** The three ways through [publish]. *)

Lemma publish_run_oversize (topic payload : cstr) (s : SafePublish C) :
  totalSize topic payload > PubSubClient.getBufferSize (_client s) ->
  let r := publish topic payload s in
  result r = false /\
  after r = mkSafePublish (_client s) (_successCount s) (ulong_add (_failCount s) 1) /\
  client_calls (events r) = [CallGetBufferSize].
Proof.
  intros H r. subst r. enter_publish topic payload.
  destruct (Z.gtb_spec
              (int_add (int_add (strlen_int topic) (strlen_int payload)) MQTT_OVERHEAD)
              (PubSubClient.getBufferSize (_client s))); [| lia].
  eval_calls. repeat split.
Qed.

Lemma publish_run_disconnected (topic payload : cstr) (s : SafePublish C) (c1 : C) :
  totalSize topic payload <= PubSubClient.getBufferSize (_client s) ->
  PubSubClient.connected (_client s) = (false, c1) ->
  let r := publish topic payload s in
  result r = false /\
  after r = mkSafePublish c1 (_successCount s) (ulong_add (_failCount s) 1) /\
  client_calls (events r) = [CallGetBufferSize; CallConnected].
Proof.
  intros H Hc r. subst r. enter_publish topic payload.
  destruct (Z.gtb_spec
              (int_add (int_add (strlen_int topic) (strlen_int payload)) MQTT_OVERHEAD)
              (PubSubClient.getBufferSize (_client s))); [lia |].
  unfold client_connected. rewrite Hc.
  eval_calls. repeat split.
Qed.

Lemma publish_run_delegated (topic payload : cstr) (s : SafePublish C)
    (c1 c2 : C) (sent : bool) :
  totalSize topic payload <= PubSubClient.getBufferSize (_client s) ->
  PubSubClient.connected (_client s) = (true, c1) ->
  PubSubClient.publish topic payload c1 = (sent, c2) ->
  let r := publish topic payload s in
  result r = sent /\
  after r =
    (if sent
     then mkSafePublish c2 (ulong_add (_successCount s) 1) (_failCount s)
     else mkSafePublish c2 (_successCount s) (ulong_add (_failCount s) 1)) /\
  client_calls (events r) = [CallGetBufferSize; CallConnected; CallPublish topic payload].
Proof.
  intros H Hc Hp r. subst r. enter_publish topic payload.
  destruct (Z.gtb_spec
              (int_add (int_add (strlen_int topic) (strlen_int payload)) MQTT_OVERHEAD)
              (PubSubClient.getBufferSize (_client s))); [lia |].
  unfold client_connected, client_publish. rewrite Hc.
  cbv beta iota zeta delta [negb with_client _client]. rewrite Hp.
  destruct sent; eval_calls; repeat split.
Qed.

(** C1.  When the total of line 37, [len(topic) + len(payload) + 10],
    exceeds the buffer size the client reports, [publish] returns false,
    calls nothing on the client but [getBufferSize] (so the client's
    [publish] is not invoked and the client is left as it was),
    increments the fail counter by one and leaves the success counter
    unchanged.  The increment is that of an [unsigned long]: one more
    modulo 2^32, which is one more for every counter value below
    4294967295. *)
Theorem publish_oversize :
  forall (topic payload : cstr) (s : SafePublish C),
    totalSize topic payload > PubSubClient.getBufferSize (_client s) ->
    let r := publish topic payload s in
    result r = false /\
    existsb is_CallPublish (events r) = false /\
    client_calls (events r) = [CallGetBufferSize] /\
    _client (after r) = _client s /\
    _failCount (after r) = (_failCount s + 1) mod 2 ^ 32 /\
    (0 <= _failCount s < ULONG_MAX -> _failCount (after r) = _failCount s + 1) /\
    _successCount (after r) = _successCount s.
Proof.
  intros topic payload s H r.
  destruct (publish_run_oversize topic payload s H) as (Hres & Hafter & Hcalls).
  fold r in Hres, Hafter, Hcalls.
  split; [exact Hres |].
  split; [rewrite (existsb_client_calls _ is_CallPublish_client_call), Hcalls;
          reflexivity |].
  split; [exact Hcalls |].
  rewrite Hafter. cbn [_client _failCount _successCount].
  split; [reflexivity |]. split; [reflexivity |].
  split; [apply ulong_incr_small | reflexivity].
Qed.

(** C2.  When the total fits the reported buffer size, the client reports
    connected and its [publish] returns true, [publish] returns true,
    increments the success counter by one ([unsigned long] increment: one
    more modulo 2^32, one more below 4294967295) and leaves the fail
    counter unchanged; the client's [publish] received the topic and the
    payload. *)
Theorem publish_success :
  forall (topic payload : cstr) (s : SafePublish C),
    totalSize topic payload <= PubSubClient.getBufferSize (_client s) ->
    fst (PubSubClient.connected (_client s)) = true ->
    fst (PubSubClient.publish topic payload
           (snd (PubSubClient.connected (_client s)))) = true ->
    let r := publish topic payload s in
    result r = true /\
    _successCount (after r) = (_successCount s + 1) mod 2 ^ 32 /\
    (0 <= _successCount s < ULONG_MAX ->
     _successCount (after r) = _successCount s + 1) /\
    _failCount (after r) = _failCount s /\
    client_calls (events r) =
      [CallGetBufferSize; CallConnected; CallPublish topic payload].
Proof.
  intros topic payload s H Hc Hp r.
  destruct (PubSubClient.connected (_client s)) as [conn c1] eqn:Ec.
  cbn [fst snd] in Hc, Hp. subst conn.
  destruct (PubSubClient.publish topic payload c1) as [sent c2] eqn:Ep.
  cbn [fst] in Hp. subst sent.
  destruct (publish_run_delegated topic payload s c1 c2 true H Ec Ep)
    as (Hres & Hafter & Hcalls).
  fold r in Hres, Hafter, Hcalls.
  split; [exact Hres |].
  rewrite Hafter. cbn [_failCount _successCount].
  split; [reflexivity |].
  split; [apply ulong_incr_small |].
  split; [reflexivity | exact Hcalls].
Qed.

(** C3.  When the computed total fits the reported buffer size but the
    client reports not connected, [publish] returns false, increments the
    fail counter by one ([unsigned long] increment: one more modulo 2^32,
    one more below 4294967295), leaves the success counter unchanged, and
    does not invoke the client's [publish]: its only calls on the client
    are [getBufferSize] and [connected]. *)
Theorem publish_disconnected :
  forall (topic payload : cstr) (s : SafePublish C),
    totalSize topic payload <= PubSubClient.getBufferSize (_client s) ->
    fst (PubSubClient.connected (_client s)) = false ->
    let r := publish topic payload s in
    result r = false /\
    _failCount (after r) = (_failCount s + 1) mod 2 ^ 32 /\
    (0 <= _failCount s < ULONG_MAX -> _failCount (after r) = _failCount s + 1) /\
    _successCount (after r) = _successCount s /\
    existsb is_CallPublish (events r) = false /\
    client_calls (events r) = [CallGetBufferSize; CallConnected].
Proof.
  intros topic payload s H Hc r.
  destruct (PubSubClient.connected (_client s)) as [conn c1] eqn:Ec.
  cbn [fst] in Hc. subst conn.
  destruct (publish_run_disconnected topic payload s c1 H Ec)
    as (Hres & Hafter & Hcalls).
  fold r in Hres, Hafter, Hcalls.
  split; [exact Hres |].
  rewrite Hafter. cbn [_failCount _successCount].
  split; [reflexivity |].
  split; [apply ulong_incr_small |].
  split; [reflexivity |].
  split; [| exact Hcalls].
  rewrite (existsb_client_calls _ is_CallPublish_client_call), Hcalls. reflexivity.
Qed.

End PublishProperties.

(** Scenario: buffer size 256, a one-byte topic and a payload of 300 bytes
    (total 311): rejected, fail count 1, success count 0. *)
Lemma publish_oversize_witness :
  totalSize topic_a payload_300 > PubSubClient.getBufferSize (_client guard_256) /\
  totalSize topic_a payload_300 = 311 /\
  result (publish topic_a payload_300 guard_256) = false /\
  existsb is_CallPublish (events (publish topic_a payload_300 guard_256)) = false /\
  _failCount (after (publish topic_a payload_300 guard_256)) = 1 /\
  _successCount (after (publish topic_a payload_300 guard_256)) = 0.
Proof.
  assert (H : totalSize topic_a payload_300
              > PubSubClient.getBufferSize (_client guard_256))
    by (vm_compute; reflexivity).
  destruct (publish_oversize topic_a payload_300 guard_256 H)
    as (Hres & Hnone & _ & _ & Hfail & _ & Hsucc).
  split; [exact H |].
  split; [vm_compute; reflexivity |].
  split; [exact Hres |].
  split; [exact Hnone |].
  split; [rewrite Hfail | rewrite Hsucc]; reflexivity.
Defined.

(** Scenario: buffer size 512, a one-byte topic and a payload of 100 bytes
    (total 111), client connected and accepting: published, success
    count 1. *)
Lemma publish_success_witness :
  totalSize topic_a payload_100 <= PubSubClient.getBufferSize (_client guard_512) /\
  totalSize topic_a payload_100 = 111 /\
  result (publish topic_a payload_100 guard_512) = true /\
  _successCount (after (publish topic_a payload_100 guard_512)) = 1 /\
  _failCount (after (publish topic_a payload_100 guard_512)) = 0.
Proof.
  assert (H : totalSize topic_a payload_100
              <= PubSubClient.getBufferSize (_client guard_512))
    by (vm_compute; discriminate).
  destruct (publish_success topic_a payload_100 guard_512 H eq_refl eq_refl)
    as (Hres & Hsucc & _ & Hfail & _).
  split; [exact H |].
  split; [vm_compute; reflexivity |].
  split; [exact Hres |].
  split; [rewrite Hsucc | rewrite Hfail]; reflexivity.
Defined.

(** The same message through a client that is not connected. *)
Lemma publish_disconnected_witness :
  totalSize topic_a payload_100
    <= PubSubClient.getBufferSize (_client guard_512_offline) /\
  fst (PubSubClient.connected (_client guard_512_offline)) = false /\
  result (publish topic_a payload_100 guard_512_offline) = false /\
  _failCount (after (publish topic_a payload_100 guard_512_offline)) = 1 /\
  _successCount (after (publish topic_a payload_100 guard_512_offline)) = 0 /\
  existsb is_CallPublish (events (publish topic_a payload_100 guard_512_offline)) = false.
Proof.
  assert (H : totalSize topic_a payload_100
              <= PubSubClient.getBufferSize (_client guard_512_offline))
    by (vm_compute; discriminate).
  destruct (publish_disconnected topic_a payload_100 guard_512_offline H eq_refl)
    as (Hres & Hfail & _ & Hsucc & Hnone & _).
  split; [exact H |].
  split; [reflexivity |].
  split; [exact Hres |].
  split; [rewrite Hfail; reflexivity |].
  split; [rewrite Hsucc; reflexivity | exact Hnone].
Defined.

(** ** autoConfigureBuffer *)

Section AutoConfigureProperties.

Context {C : Type} {client : PubSubClient.Client C}.

Lemma autoConfigureBuffer_run (maxTopicLen maxPayloadLen : Z) (s : SafePublish C) :
  let r := autoConfigureBuffer maxTopicLen maxPayloadLen s in
  let bufSize := nextPowerOf2 (needed maxTopicLen maxPayloadLen) in
  result r = bufSize /\
  after r = with_client (snd (PubSubClient.setBufferSize bufSize (_client s))) s /\
  events r =
    [CallSetBufferSize bufSize;
     SerialPrintf "[MQTT] Buffer auto-configured: %d bytes (needed %d)\n"
                  [ArgInt bufSize; ArgInt (needed maxTopicLen maxPayloadLen)]].
Proof.
  intros r bufSize. subst r bufSize.
  unfold autoConfigureBuffer, bind, client_setBufferSize, needed.
  rewrite nextPowerOf2_fits_uint16.
  destruct (PubSubClient.setBufferSize _ (_client s)) as [ok c1].
  cbv beta iota zeta delta
    [Serial_printf ret result after events fst snd app with_client
     _client _successCount _failCount].
  repeat split.
Qed.

(** C5.  [autoConfigureBuffer] computes [needed] as the [int] sum
    [maxTopicLen + maxPayloadLen + 10 + 50] (the mathematical sum whenever
    that fits in an [int]), hands [nextPowerOf2(needed)] to the client's
    [setBufferSize] in its one call on the client, and returns that same
    value; the counters are not touched. *)
Theorem autoConfigureBuffer_spec :
  forall (maxTopicLen maxPayloadLen : Z) (s : SafePublish C),
    let r := autoConfigureBuffer maxTopicLen maxPayloadLen s in
    let bufSize := nextPowerOf2 (needed maxTopicLen maxPayloadLen) in
    (in_int (maxTopicLen + maxPayloadLen + 10 + 50) ->
     needed maxTopicLen maxPayloadLen = maxTopicLen + maxPayloadLen + 10 + 50) /\
    result r = bufSize /\
    client_calls (events r) = [CallSetBufferSize bufSize] /\
    _client (after r) = snd (PubSubClient.setBufferSize bufSize (_client s)) /\
    _successCount (after r) = _successCount s /\
    _failCount (after r) = _failCount s.
Proof.
  intros maxTopicLen maxPayloadLen s r bufSize.
  destruct (autoConfigureBuffer_run maxTopicLen maxPayloadLen s)
    as (Hres & Hafter & Hev).
  fold r bufSize in Hres, Hafter, Hev.
  split; [apply needed_exact |].
  split; [exact Hres |].
  split; [rewrite Hev; reflexivity |].
  rewrite Hafter. repeat split.
Qed.

(** When the client installs the size it is handed, that size is what it
    reports afterwards. *)
Lemma autoConfigureBuffer_configures (maxTopicLen maxPayloadLen : Z) (s : SafePublish C) :
  let bufSize := nextPowerOf2 (needed maxTopicLen maxPayloadLen) in
  PubSubClient.getBufferSize
    (snd (PubSubClient.setBufferSize bufSize (_client s))) = bufSize ->
  PubSubClient.getBufferSize
    (_client (after (autoConfigureBuffer maxTopicLen maxPayloadLen s))) = bufSize.
Proof.
  intros bufSize Hset.
  destruct (autoConfigureBuffer_run maxTopicLen maxPayloadLen s) as (_ & Hafter & _).
  rewrite Hafter. exact Hset.
Qed.

(** C7, amended.  [autoConfigureBuffer(1000, 20000)] computes
    [needed = 1000 + 20000 + 10 + 50 = 21060]; the sizing rule stops at
    its ceiling, so the size handed to the client and returned is 8192,
    below what is needed. *)
Theorem autoConfigureBuffer_capped :
  forall s : SafePublish C,
    let r := autoConfigureBuffer 1000 20000 s in
    needed 1000 20000 = 21060 /\
    nextPowerOf2 21060 = 8192 /\
    result r = 8192 /\
    client_calls (events r) = [CallSetBufferSize 8192] /\
    _client (after r) = snd (PubSubClient.setBufferSize 8192 (_client s)) /\
    result r < needed 1000 20000.
Proof.
  intros s r.
  destruct (autoConfigureBuffer_run 1000 20000 s) as (Hres & Hafter & Hev).
  fold r in Hres, Hafter, Hev.
  assert (Hn : needed 1000 20000 = 21060) by (vm_compute; reflexivity).
  assert (Hp : nextPowerOf2 21060 = 8192) by (vm_compute; reflexivity).
  rewrite Hn, Hp in Hres, Hafter, Hev.
  split; [exact Hn |].
  split; [exact Hp |].
  split; [exact Hres |].
  split; [rewrite Hev; reflexivity |].
  split; [rewrite Hafter; reflexivity |].
  rewrite Hres, Hn. lia.
Qed.

End AutoConfigureProperties.

(** Scenario: [autoConfigureBuffer(50, 1000)]: needed 1110, buffer 2048,
    which the client then reports. *)
Lemma autoConfigureBuffer_spec_witness :
  in_int (50 + 1000 + 10 + 50) /\
  needed 50 1000 = 1110 /\
  result (autoConfigureBuffer 50 1000 guard_256) = 2048 /\
  client_calls (events (autoConfigureBuffer 50 1000 guard_256)) = [CallSetBufferSize 2048] /\
  PubSubClient.getBufferSize (_client (after (autoConfigureBuffer 50 1000 guard_256))) = 2048.
Proof.
  destruct (autoConfigureBuffer_spec 50 1000 guard_256)
    as (Hneeded & Hres & Hcalls & Hclient & _ & _).
  assert (Hin : in_int (50 + 1000 + 10 + 50))
    by (unfold in_int, INT_MIN, INT_MAX; lia).
  split; [exact Hin |].
  split; [rewrite (Hneeded Hin); reflexivity |].
  split; [rewrite Hres; reflexivity |].
  split; [rewrite Hcalls; reflexivity |].
  rewrite Hclient. reflexivity.
Defined.

(** C7 as stated fails on the value of [needed]: for the arguments 1000
    and 20000 line 97 computes 21060, not 21080. *)
Lemma autoConfigureBuffer_needed_counterexample :
  needed 1000 20000 = 21060 /\
  1000 + 20000 + MQTT_OVERHEAD + 50 = 21060 /\
  needed 1000 20000 <> 21080.
Proof.
  split; [vm_compute; reflexivity |].
  split; [reflexivity |].
  vm_compute. discriminate.
Qed.

(** ** The String overload *)

Section StringOverload.

Context {C : Type} {client : PubSubClient.Client C}.
Context {S : Type} {str : WString.String S}.

(** The spec's words: the overload forwards to the primitive form
    unchanged. *)
Definition publish_String_forwarded (topic payload : S) : M bool :=
  publish (WString.c_str topic) (WString.c_str payload).

Lemma bind_ret_r {A : Type} (m : @M C A) (s : SafePublish C) :
  bind m (fun a => ret a) s = m s.
Proof.
  unfold bind, ret. destruct (m s) as [[a s1] e1].
  rewrite app_nil_r. reflexivity.
Qed.

Lemma publish_String_unfold (topic payload : S) (s : SafePublish C) :
  publish_String topic payload s = publish (WString.c_str topic) (WString.c_str payload) s.
Proof. unfold publish_String. apply bind_ret_r. Qed.

(** C8.  The String overload gives the result, the object (counters and
    client) and the trace of client and Serial calls of the primitive
    [publish] on the character sequences of its two arguments. *)
Theorem publish_String_forwards :
  forall (topic payload : S) (s : SafePublish C),
    publish_String topic payload s = publish_String_forwarded topic payload s /\
    result (publish_String topic payload s)
      = result (publish (WString.c_str topic) (WString.c_str payload) s) /\
    after (publish_String topic payload s)
      = after (publish (WString.c_str topic) (WString.c_str payload) s) /\
    events (publish_String topic payload s)
      = events (publish (WString.c_str topic) (WString.c_str payload) s).
Proof.
  intros topic payload s. unfold publish_String_forwarded.
  rewrite publish_String_unfold. repeat split.
Qed.

End StringOverload.

(** ** printStats *)

(** A state in which the unsigned sum of the counters has wrapped to 0
    while the fail counter is not 0. *)
Definition stats_wrapped : SafePublish Stub.t :=
  mkSafePublish (Stub.mk 256 true true) 4294967295 1.

Section PrintStatsProperties.

Context {C : Type} {client : PubSubClient.Client C}.

Lemma printStats_run (s : SafePublish C) :
  let r := printStats s in
  after r = s /\
  client_calls (events r) = [] /\
  divisors (events r) =
    (if _failCount s >? 0
     then [ulong_add (_successCount s) (_failCount s)]
     else []).
Proof.
  intros r. subst r. unfold printStats, bind, read.
  cbv beta iota zeta delta [Serial_println Serial_printf].
  destruct (_failCount s >? 0);
    cbv beta iota zeta delta
      [Serial_printf ret result after events fst snd app client_calls filter
       is_client_call divisors flat_map event_divisors arg_divisors];
    repeat split.
Qed.

(** C9, amended.  [printStats] divides only when the fail counter is not
    0.  The divisor is the [unsigned long] sum of the two counters, that
    is [success + fail] modulo 2^32: it is 0 exactly when the sum of the
    counters is 2^32, and not 0 whenever the sum has not wrapped
    around. *)
Theorem printStats_divisor :
  forall s : SafePublish C,
    counters_ok s ->
    let ds := divisors (events (printStats s)) in
    (_failCount s = 0 -> ds = []) /\
    (_failCount s <> 0 -> ds = [(_successCount s + _failCount s) mod 2 ^ 32]) /\
    (forall d, In d ds ->
       _failCount s <> 0 /\
       (d = 0 <-> _successCount s + _failCount s = 2 ^ 32) /\
       (_successCount s + _failCount s < 2 ^ 32 -> d <> 0)).
Proof.
  intros s [Hs Hf] ds.
  destruct (printStats_run s) as (_ & _ & Hd). fold ds in Hd.
  unfold in_ulong, ULONG_MAX in Hs, Hf.
  destruct (Z.gtb_spec (_failCount s) 0) as [Hpos | Hzero].
  - unfold ulong_add, to_ulong in Hd.
    split; [lia |]. split; [intros _; exact Hd |].
    intros d Hin. rewrite Hd in Hin. destruct Hin as [<- | []].
    split; [lia |].
    assert (Hcases :
      (_successCount s + _failCount s < 2 ^ 32 /\
       (_successCount s + _failCount s) mod 2 ^ 32 = _successCount s + _failCount s) \/
      (2 ^ 32 <= _successCount s + _failCount s /\
       (_successCount s + _failCount s) mod 2 ^ 32
         = _successCount s + _failCount s - 2 ^ 32)).
    { destruct (Z_lt_le_dec (_successCount s + _failCount s) (2 ^ 32)) as [Hlt | Hge].
      - left. split; [exact Hlt | apply Z.mod_small; lia].
      - right. split; [exact Hge |].
        symmetry. apply (Z.mod_unique _ _ 1); lia. }
    destruct Hcases as [[Hlt Hm] | [Hge Hm]]; rewrite Hm; lia.
  - split; [intros _; exact Hd |]. split; [lia |].
    intros d Hin. rewrite Hd in Hin. destruct Hin.
Qed.

End PrintStatsProperties.

(** After one failure and no success the divisor is 1. *)
Lemma printStats_divisor_witness :
  counters_ok (mkSafePublish (Stub.mk 256 true true) 0 1) /\
  divisors (events (printStats (mkSafePublish (Stub.mk 256 true true) 0 1))) = [1].
Proof.
  assert (Hok : counters_ok (mkSafePublish (Stub.mk 256 true true) 0 1))
    by (unfold counters_ok, in_ulong, ULONG_MAX; cbn; lia).
  split; [exact Hok |].
  destruct (printStats_divisor (mkSafePublish (Stub.mk 256 true true) 0 1) Hok)
    as (_ & Hds & _).
  rewrite Hds; [reflexivity | cbn; lia].
Defined.

(** C9 as stated fails: with 4294967295 successes and 1 failure counted,
    the fail counter is not 0, so [printStats] divides, and the divisor
    [_successCount + _failCount] is 0. *)
Lemma printStats_division_by_zero_counterexample :
  counters_ok stats_wrapped /\
  _failCount stats_wrapped > 0 /\
  divisors (events (printStats stats_wrapped)) = [0] /\
  In (SerialPrintf "  ⚠️  %.1f%% failure rate\n" [ArgRate 1 0])
     (events (printStats stats_wrapped)).
Proof.
  split; [unfold counters_ok, in_ulong, ULONG_MAX; cbn; lia |].
  split; [reflexivity |].
  split; [vm_compute; reflexivity |].
  vm_compute. do 3 right. left. reflexivity.
Qed.

(** ** Sequences of operations *)

(** The client leaves its configured buffer size alone in [connected] and
    in [publish]. *)
Definition keeps_buffer_size {C : Type} (client : PubSubClient.Client C) : Prop :=
  (forall c, PubSubClient.getBufferSize (snd (PubSubClient.connected c))
             = PubSubClient.getBufferSize c) /\
  (forall topic payload c,
      PubSubClient.getBufferSize (snd (PubSubClient.publish topic payload c))
      = PubSubClient.getBufferSize c).

Section SequenceProperties.

Context {C : Type} {client : PubSubClient.Client C}.
Context {S : Type} {str : WString.String S}.

Lemma forget_run {A : Type} (m : @M C A) (s : SafePublish C) :
  after (forget m s) = after (m s) /\ events (forget m s) = events (m s).
Proof.
  unfold forget, bind, ret, after, events.
  destruct (m s) as [[a s1] e1]. cbn [fst snd].
  rewrite app_nil_r. split; reflexivity.
Qed.

Lemma run_cons (op : Op S) (ops : list (Op S)) (s : SafePublish C) :
  after (run (op :: ops) s) = after (run ops (after (exec op s))) /\
  events (run (op :: ops) s)
    = events (exec op s) ++ events (run ops (after (exec op s))).
Proof.
  cbn [run]. unfold bind, after, events.
  destruct (exec op s) as [[u s1] e1]. cbn [fst snd].
  destruct (run ops s1) as [[v s2] e2]. split; reflexivity.
Qed.

Lemma run_app (ops1 ops2 : list (Op S)) (s : SafePublish C) :
  after (run (ops1 ++ ops2) s) = after (run ops2 (after (run ops1 s))).
Proof.
  revert s. induction ops1 as [| op ops1 IH]; intros s.
  - reflexivity.
  - cbn [app]. rewrite (proj1 (run_cons op (ops1 ++ ops2) s)).
    rewrite (proj1 (run_cons op ops1 s)). apply IH.
Qed.

(** Every call of [publish] goes one of the three ways. *)
Lemma publish_cases (topic payload : cstr) (s : SafePublish C) :
  let r := publish topic payload s in
  (after r = mkSafePublish (_client s) (_successCount s) (ulong_add (_failCount s) 1) /\
   client_calls (events r) = [CallGetBufferSize]) \/
  (after r = mkSafePublish (snd (PubSubClient.connected (_client s)))
               (_successCount s) (ulong_add (_failCount s) 1) /\
   client_calls (events r) = [CallGetBufferSize; CallConnected]) \/
  (exists (sent : bool),
     after r =
       (let c2 := snd (PubSubClient.publish topic payload
                         (snd (PubSubClient.connected (_client s)))) in
        if sent
        then mkSafePublish c2 (ulong_add (_successCount s) 1) (_failCount s)
        else mkSafePublish c2 (_successCount s) (ulong_add (_failCount s) 1)) /\
     client_calls (events r)
       = [CallGetBufferSize; CallConnected; CallPublish topic payload]).
Proof.
  intros r.
  destruct (Z_gt_le_dec (totalSize topic payload)
                        (PubSubClient.getBufferSize (_client s))) as [Hgt | Hle].
  - left. destruct (publish_run_oversize topic payload s Hgt) as (_ & Ha & Hc).
    split; assumption.
  - destruct (PubSubClient.connected (_client s)) as [conn c1] eqn:Ec.
    destruct conn.
    + right. right.
      destruct (PubSubClient.publish topic payload c1) as [sent c2] eqn:Ep.
      destruct (publish_run_delegated topic payload s c1 c2 sent Hle Ec Ep)
        as (_ & Ha & Hc).
      exists sent. cbn [snd]. rewrite Ep. cbn [snd]. split; assumption.
    + right. left.
      destruct (publish_run_disconnected topic payload s c1 Hle Ec) as (_ & Ha & Hc).
      cbn [snd]. split; assumption.
Qed.

(** What one call of [publish] does to the counters, and what it does
    not do to the client. *)
Lemma publish_summary (topic payload : cstr) (s : SafePublish C) :
  let r := publish topic payload s in
  ((_successCount (after r) = ulong_add (_successCount s) 1 /\
    _failCount (after r) = _failCount s) \/
   (_successCount (after r) = _successCount s /\
    _failCount (after r) = ulong_add (_failCount s) 1)) /\
  existsb is_CallSetBufferSize (events r) = false /\
  (keeps_buffer_size client ->
   PubSubClient.getBufferSize (_client (after r))
   = PubSubClient.getBufferSize (_client s)).
Proof.
  intros r.
  rewrite (existsb_client_calls _ is_CallSetBufferSize_client_call).
  destruct (publish_cases topic payload s)
    as [[Ha Hc] | [[Ha Hc] | [sent [Ha Hc]]]];
    fold r in Ha, Hc; rewrite Ha, Hc.
  - split; [right; split; reflexivity |]. split; [reflexivity |].
    intros _. reflexivity.
  - split; [right; split; reflexivity |]. split; [reflexivity |].
    intros [Hconn _]. cbn [_client]. apply Hconn.
  - split; [destruct sent; [left | right]; split; reflexivity |].
    split; [reflexivity |].
    intros [Hconn Hpub]. destruct sent; cbn [_client]; rewrite Hpub; apply Hconn.
Qed.

(** The operations one by one: the object after the call and the calls
    made on the client. *)
Lemma exec_summary (op : Op S) (s : SafePublish C) :
  let r := exec op s in
  match op with
  | OpPublish topic payload =>
      after r = after (publish topic payload s) /\
      events r = events (publish topic payload s)
  | OpPublishString topic payload =>
      after r = after (publish (WString.c_str topic) (WString.c_str payload) s) /\
      events r = events (publish (WString.c_str topic) (WString.c_str payload) s)
  | OpAutoConfigureBuffer a b =>
      after r = with_client
                  (snd (PubSubClient.setBufferSize
                          (nextPowerOf2 (needed a b)) (_client s))) s /\
      client_calls (events r) = [CallSetBufferSize (nextPowerOf2 (needed a b))]
  | OpPrintStats => after r = s /\ client_calls (events r) = []
  | OpGetSuccessCount | OpGetFailCount => after r = s /\ events r = []
  | OpResetStats => after r = mkSafePublish (_client s) 0 0 /\ events r = []
  end.
Proof.
  intros r. subst r. destruct op as [t p | t p | a b | | | |]; cbn [exec].
  - apply forget_run.
  - destruct (forget_run (publish_String t p) s) as [Ha He].
    rewrite Ha, He, publish_String_unfold. split; reflexivity.
  - destruct (forget_run (autoConfigureBuffer a b) s) as [Ha He].
    destruct (autoConfigureBuffer_run a b s) as (_ & Ha' & He').
    rewrite Ha, He, Ha', He'. split; reflexivity.
  - destruct (printStats_run s) as (Ha & Hc & _). split; assumption.
  - split; reflexivity.
  - split; reflexivity.
  - split; reflexivity.
Qed.

(** One operation and the counters. *)
Lemma exec_counters (op : Op S) (s : SafePublish C) :
  let s' := after (exec op s) in
  (is_resetStats op = true -> _successCount s' = 0 /\ _failCount s' = 0) /\
  (is_publish op = true ->
   (_successCount s' = ulong_add (_successCount s) 1 /\ _failCount s' = _failCount s) \/
   (_successCount s' = _successCount s /\ _failCount s' = ulong_add (_failCount s) 1)) /\
  (is_publish op = false -> is_resetStats op = false ->
   _successCount s' = _successCount s /\ _failCount s' = _failCount s).
Proof.
  intros s'. subst s'. pose proof (exec_summary op s) as H.
  destruct op as [t p | t p | a b | | | |]; cbn zeta in H; destruct H as [Ha He];
    cbn [is_resetStats is_publish]; rewrite Ha;
    (split; [| split]); try discriminate; intros;
    try (split; reflexivity).
  - apply publish_summary.
  - apply publish_summary.
Qed.

Lemma exec_counters_ok (op : Op S) (s : SafePublish C) :
  counters_ok s -> counters_ok (after (exec op s)).
Proof.
  intros [Hs Hf].
  destruct (exec_counters op s) as (Hreset & Hpub & Hother).
  unfold counters_ok.
  destruct (is_resetStats op) eqn:Er.
  - destruct (Hreset eq_refl) as [-> ->]. unfold in_ulong, ULONG_MAX. lia.
  - destruct (is_publish op) eqn:Ep.
    + destruct (Hpub eq_refl) as [[-> ->] | [-> ->]];
        split; try assumption; apply ulong_add_in_ulong.
    + destruct (Hother eq_refl eq_refl) as [-> ->]. split; assumption.
Qed.

Lemma run_counters_ok (ops : list (Op S)) :
  forall s : SafePublish C, counters_ok s -> counters_ok (after (run ops s)).
Proof.
  induction ops as [| op ops IH]; intros s Hs.
  - exact Hs.
  - rewrite (proj1 (run_cons op ops s)). apply IH, exec_counters_ok, Hs.
Qed.

End SequenceProperties.

Section CounterInvariant.

Context {C : Type} {client : PubSubClient.Client C}.
Context {S : Type} {str : WString.String S}.

(** C6, amended.  From an object with valid counters, after any sequence
    of operations and for any next operation: [resetStats] sets both
    counters to 0; any other operation leaves each counter at least as
    large as it was, except that a counter holding 4294967295 wraps to 0
    when incremented; a publish attempt (either overload) increments
    exactly one of the two counters, by 1 modulo 2^32, and leaves the
    other as it was; the remaining operations change no counter. *)
Theorem counters_evolution :
  forall (s0 : SafePublish C) (ops : list (Op S)) (op : Op S),
    counters_ok s0 ->
    let s := after (run ops s0) in
    let s' := after (exec op s) in
    counters_ok s /\ counters_ok s' /\
    (is_resetStats op = true -> _successCount s' = 0 /\ _failCount s' = 0) /\
    (is_resetStats op = false ->
     (_successCount s <= _successCount s' \/
      (_successCount s = ULONG_MAX /\ _successCount s' = 0)) /\
     (_failCount s <= _failCount s' \/
      (_failCount s = ULONG_MAX /\ _failCount s' = 0))) /\
    (is_publish op = true ->
     (_successCount s' = (_successCount s + 1) mod 2 ^ 32 /\
      _failCount s' = _failCount s) \/
     (_successCount s' = _successCount s /\
      _failCount s' = (_failCount s + 1) mod 2 ^ 32)) /\
    (is_publish op = false -> is_resetStats op = false ->
     _successCount s' = _successCount s /\ _failCount s' = _failCount s).
Proof.
  intros s0 ops op H0 s s'.
  assert (Hs : counters_ok s) by (apply run_counters_ok, H0).
  assert (Hs' : counters_ok s') by (apply exec_counters_ok, Hs).
  destruct (exec_counters op s) as (Hreset & Hpub & Hother).
  fold s' in Hreset, Hpub, Hother.
  split; [exact Hs |]. split; [exact Hs' |]. split; [exact Hreset |].
  split; [| split; [exact Hpub | exact Hother]].
  intros Hnr. destruct Hs as [Hsucc Hfail].
  destruct (is_publish op) eqn:Ep.
  - destruct (Hpub eq_refl) as [[-> ->] | [-> ->]].
    + split; [| left; lia].
      destruct (ulong_incr_cases _ Hsucc) as [[_ ->] | [-> ->]];
        [left; lia | right; split; reflexivity].
    + split; [left; lia |].
      destruct (ulong_incr_cases _ Hfail) as [[_ ->] | [-> ->]];
        [left; lia | right; split; reflexivity].
  - destruct (Hother eq_refl Hnr) as [-> ->]. split; left; lia.
Qed.

(** C10.  No call of [publish], by either overload, with any arguments
    and in any state, invokes [setBufferSize]; so the buffer size the
    client reports is the same before and after the call, for every
    client that does not change it on its own inside [connected] or
    [publish].  Among all operations of the guard, only
    [autoConfigureBuffer] invokes [setBufferSize]. *)
Theorem publish_keeps_buffer_size :
  forall (topic payload : cstr) (stopic spayload : S) (op : Op S) (s : SafePublish C),
    (existsb is_CallSetBufferSize (events (publish topic payload s)) = false /\
     (keeps_buffer_size client ->
      PubSubClient.getBufferSize (_client (after (publish topic payload s)))
      = PubSubClient.getBufferSize (_client s))) /\
    (existsb is_CallSetBufferSize (events (publish_String stopic spayload s)) = false /\
     (keeps_buffer_size client ->
      PubSubClient.getBufferSize (_client (after (publish_String stopic spayload s)))
      = PubSubClient.getBufferSize (_client s))) /\
    (existsb is_CallSetBufferSize (events (exec op s)) = true ->
     is_autoConfigureBuffer op = true).
Proof.
  intros topic payload stopic spayload op s.
  split; [| split].
  - destruct (publish_summary topic payload s) as (_ & Hnone & Hsize).
    split; [exact Hnone | exact Hsize].
  - rewrite publish_String_unfold.
    destruct (publish_summary (WString.c_str stopic) (WString.c_str spayload) s)
      as (_ & Hnone & Hsize).
    split; [exact Hnone | exact Hsize].
  - rewrite (existsb_client_calls _ is_CallSetBufferSize_client_call).
    pose proof (exec_summary op s) as H.
    destruct op as [t p | t p | a b | | | |];
      cbv zeta in H; destruct H as [_ He]; cbn [is_autoConfigureBuffer];
      intros Hcall.
    + rewrite He in Hcall.
      rewrite <- (existsb_client_calls _ is_CallSetBufferSize_client_call) in Hcall.
      destruct (publish_summary t p s) as (_ & Hnone & _). congruence.
    + rewrite He in Hcall.
      rewrite <- (existsb_client_calls _ is_CallSetBufferSize_client_call) in Hcall.
      destruct (publish_summary (WString.c_str t) (WString.c_str p) s)
        as (_ & Hnone & _). congruence.
    + reflexivity.
    + rewrite He in Hcall. discriminate Hcall.
    + rewrite He in Hcall. discriminate Hcall.
    + rewrite He in Hcall. discriminate Hcall.
    + rewrite He in Hcall. discriminate Hcall.
Qed.

End CounterInvariant.

(** ** Long runs on the test double *)

(** A state in which the fail counter holds the largest [unsigned long]. *)
Definition fail_saturated : SafePublish Stub.t :=
  mkSafePublish (Stub.mk 256 true true) 0 4294967295.

Definition op_reject : Op (list byte) := OpPublish topic_a payload_300.
Definition op_accept : Op (list byte) := OpPublish topic_a payload_100.

Lemma exec_op_reject (succ fail : Z) :
  after (exec op_reject (mkSafePublish (Stub.mk 256 true true) succ fail))
  = mkSafePublish (Stub.mk 256 true true) succ (ulong_add fail 1).
Proof.
  unfold op_reject. cbn [exec]. rewrite (proj1 (forget_run _ _)).
  refine (proj1 (proj2 (publish_run_oversize topic_a payload_300 _ _))).
  vm_compute. reflexivity.
Qed.

Lemma exec_op_accept (succ fail : Z) :
  after (exec op_accept (mkSafePublish (Stub.mk 256 true true) succ fail))
  = mkSafePublish (Stub.mk 256 true true) (ulong_add succ 1) fail.
Proof.
  unfold op_accept. cbn [exec]. rewrite (proj1 (forget_run _ _)).
  refine (proj1 (proj2 (publish_run_delegated topic_a payload_100
                          (mkSafePublish (Stub.mk 256 true true) succ fail)
                          (Stub.mk 256 true true) (Stub.mk 256 true true) true
                          _ eq_refl eq_refl))).
  vm_compute. discriminate.
Qed.

(** [n] rejected messages in a row add [n] to the fail counter, modulo
    2^32. *)
Lemma run_rejects (n : nat) :
  forall succ fail : Z,
    in_ulong fail ->
    after (run (repeat op_reject n) (mkSafePublish (Stub.mk 256 true true) succ fail))
    = mkSafePublish (Stub.mk 256 true true) succ ((fail + Z.of_nat n) mod 2 ^ 32).
Proof.
  induction n as [| n IH]; intros succ fail Hfail.
  - cbn [repeat run]. unfold ret, after. cbn [fst snd].
    rewrite Z.add_0_r, Z.mod_small; [reflexivity |].
    unfold in_ulong, ULONG_MAX in Hfail. lia.
  - cbn [repeat]. rewrite (proj1 (run_cons _ _ _)), exec_op_reject.
    rewrite IH by apply ulong_add_in_ulong.
    unfold ulong_add, to_ulong. rewrite Zplus_mod_idemp_l.
    do 2 f_equal. lia.
Qed.

(** [n] accepted messages in a row add [n] to the success counter, modulo
    2^32. *)
Lemma run_accepts (n : nat) :
  forall succ fail : Z,
    in_ulong succ ->
    after (run (repeat op_accept n) (mkSafePublish (Stub.mk 256 true true) succ fail))
    = mkSafePublish (Stub.mk 256 true true) ((succ + Z.of_nat n) mod 2 ^ 32) fail.
Proof.
  induction n as [| n IH]; intros succ fail Hsucc.
  - cbn [repeat run]. unfold ret, after. cbn [fst snd].
    rewrite Z.add_0_r, Z.mod_small; [reflexivity |].
    unfold in_ulong, ULONG_MAX in Hsucc. lia.
  - cbn [repeat]. rewrite (proj1 (run_cons _ _ _)), exec_op_accept.
    rewrite IH by apply ulong_add_in_ulong.
    unfold ulong_add, to_ulong. rewrite Zplus_mod_idemp_l.
    do 2 f_equal. lia.
Qed.

Lemma in_ulong_0 : in_ulong 0.
Proof. unfold in_ulong, ULONG_MAX. lia. Qed.

(** A fresh guard reaches [fail_saturated] through 4294967295 rejected
    messages. *)
Lemma fail_saturated_reachable :
  after (run (repeat op_reject (Z.to_nat 4294967295)) guard_256) = fail_saturated.
Proof.
  unfold guard_256, new.
  remember (Z.to_nat 4294967295) as n eqn:En.
  rewrite (run_rejects n 0 0 in_ulong_0).
  subst n. rewrite Z2Nat.id by lia. reflexivity.
Qed.

(** A fresh guard reaches [stats_wrapped] through 4294967295 accepted
    messages and one rejected message. *)
Lemma stats_wrapped_reachable :
  after (run (repeat op_accept (Z.to_nat 4294967295) ++ [op_reject]) guard_256)
  = stats_wrapped.
Proof.
  rewrite run_app. unfold guard_256, new.
  remember (Z.to_nat 4294967295) as n eqn:En.
  pose proof (run_accepts n 0 0 in_ulong_0) as Hrun.
  subst n. rewrite Z2Nat.id in Hrun by lia.
  change ((0 + 4294967295) mod 2 ^ 32) with 4294967295 in Hrun.
  rewrite Hrun.
  rewrite (proj1 (run_cons op_reject [] _)), exec_op_reject. reflexivity.
Qed.

(** C6 as stated fails: the state [fail_saturated] is reached from a fresh
    guard without any [resetStats], and one more rejected message, which is
    not a [resetStats] either, takes the fail counter from 4294967295
    down to 0. *)
Lemma counters_decrease_counterexample :
  (exists ops : list (Op (list byte)),
      Forall (fun op => is_resetStats op = false) ops /\
      after (run ops guard_256) = fail_saturated) /\
  is_resetStats op_reject = false /\
  _failCount fail_saturated = 4294967295 /\
  _failCount (after (exec op_reject fail_saturated)) = 0 /\
  _failCount (after (exec op_reject fail_saturated)) < _failCount fail_saturated.
Proof.
  split.
  - exists (repeat op_reject (Z.to_nat 4294967295)). split.
    + apply Forall_forall. intros op Hin. apply repeat_spec in Hin. subst op.
      reflexivity.
    + apply fail_saturated_reachable.
  - unfold fail_saturated. rewrite exec_op_reject. cbn [_failCount].
    change (ulong_add 4294967295 1) with 0.
    split; [reflexivity |]. split; [reflexivity |]. split; [reflexivity | lia].
Qed.

(** A rejected message, then [resetStats]: the fail counter goes from 0 to
    1 and back to 0. *)
Lemma counters_evolution_witness :
  counters_ok guard_256 /\
  _failCount (after (run [op_reject] guard_256)) = 1 /\
  _failCount (after (exec OpResetStats (after (run [op_reject] guard_256)))) = 0 /\
  _successCount (after (exec OpResetStats (after (run [op_reject] guard_256)))) = 0.
Proof.
  assert (Hok : counters_ok guard_256) by (split; apply in_ulong_0).
  destruct (counters_evolution guard_256 [op_reject] OpResetStats Hok)
    as (_ & _ & Hreset & _).
  destruct (Hreset eq_refl) as [Hsucc Hfail].
  split; [exact Hok |].
  split; [vm_compute; reflexivity |].
  split; [exact Hfail | exact Hsucc].
Defined.

Lemma stub_keeps_buffer_size : keeps_buffer_size Stub.client.
Proof. split; intros; reflexivity. Qed.

(** On the test double, an accepted message leaves the buffer size at 512
    and makes no call of [setBufferSize]. *)
Lemma publish_keeps_buffer_size_witness :
  keeps_buffer_size Stub.client /\
  PubSubClient.getBufferSize (_client (after (publish topic_a payload_100 guard_512)))
  = 512 /\
  existsb is_CallSetBufferSize (events (publish topic_a payload_100 guard_512)) = false /\
  existsb is_CallSetBufferSize (events (exec (OpAutoConfigureBuffer 50 1000) guard_512))
  = true.
Proof.
  destruct (publish_keeps_buffer_size topic_a payload_100 topic_a payload_100
              (OpAutoConfigureBuffer 50 1000) guard_512)
    as ((Hnone & Hsize) & _ & _).
  split; [exact stub_keeps_buffer_size |].
  split; [rewrite (Hsize stub_keeps_buffer_size); reflexivity |].
  split; [exact Hnone |].
  vm_compute. reflexivity.
Defined.


(** * Further properties of the guard *)

(** ** The ways through publish, with their conditions *)

Definition is_serial (e : Event) : bool := negb (is_client_call e).

Definition guard_512_refusing : SafePublish Stub.t := new (Stub.mk 512 true false).

Section PublishOutcomes.

Context {C : Type} {client : PubSubClient.Client C}.

(** Which way a call of [publish] goes is decided by the size test, then by
    [connected()], then by the client's [publish]. *)
Lemma publish_outcomes (topic payload : cstr) (s : SafePublish C) :
  let r := publish topic payload s in
  let c1 := snd (PubSubClient.connected (_client s)) in
  let sent := fst (PubSubClient.publish topic payload c1) in
  let c2 := snd (PubSubClient.publish topic payload c1) in
  (totalSize topic payload > PubSubClient.getBufferSize (_client s) /\
   result r = false /\
   after r = mkSafePublish (_client s) (_successCount s) (ulong_add (_failCount s) 1) /\
   client_calls (events r) = [CallGetBufferSize]) \/
  (totalSize topic payload <= PubSubClient.getBufferSize (_client s) /\
   fst (PubSubClient.connected (_client s)) = false /\
   result r = false /\
   after r = mkSafePublish c1 (_successCount s) (ulong_add (_failCount s) 1) /\
   client_calls (events r) = [CallGetBufferSize; CallConnected]) \/
  (totalSize topic payload <= PubSubClient.getBufferSize (_client s) /\
   fst (PubSubClient.connected (_client s)) = true /\
   result r = sent /\
   after r =
     (if sent
      then mkSafePublish c2 (ulong_add (_successCount s) 1) (_failCount s)
      else mkSafePublish c2 (_successCount s) (ulong_add (_failCount s) 1)) /\
   client_calls (events r) = [CallGetBufferSize; CallConnected; CallPublish topic payload]).
Proof.
  intros r c1 sent c2.
  destruct (Z_gt_le_dec (totalSize topic payload)
                        (PubSubClient.getBufferSize (_client s))) as [Hgt | Hle].
  - left. split; [exact Hgt |]. apply (publish_run_oversize topic payload s Hgt).
  - right. subst c1 sent c2.
    destruct (PubSubClient.connected (_client s)) as [conn k1] eqn:Ec.
    cbn [fst snd]. destruct conn.
    + right. split; [exact Hle |]. split; [reflexivity |].
      destruct (PubSubClient.publish topic payload k1) as [b k2] eqn:Ep.
      cbn [fst snd].
      apply (publish_run_delegated topic payload s k1 k2 b Hle Ec Ep).
    + left. split; [exact Hle |]. split; [reflexivity |].
      apply (publish_run_disconnected topic payload s k1 Hle Ec).
Qed.

(** X1.  The third failure: the message fits and the client is connected,
    but the client's [publish] returns false.  [publish] returns false,
    increments the fail counter (one more modulo 2^32), leaves the success
    counter unchanged; the client's [publish] was invoked once, with the
    topic and the payload. *)
Theorem publish_underlying_failure :
  forall (topic payload : cstr) (s : SafePublish C),
    totalSize topic payload <= PubSubClient.getBufferSize (_client s) ->
    fst (PubSubClient.connected (_client s)) = true ->
    fst (PubSubClient.publish topic payload
           (snd (PubSubClient.connected (_client s)))) = false ->
    let r := publish topic payload s in
    result r = false /\
    _failCount (after r) = (_failCount s + 1) mod 2 ^ 32 /\
    _successCount (after r) = _successCount s /\
    client_calls (events r) = [CallGetBufferSize; CallConnected; CallPublish topic payload].
Proof.
  intros topic payload s Hfit Hconn Hsent r. subst r.
  destruct (publish_outcomes topic payload s)
    as [(Hgt & _) | [(_ & Hc & _) | (_ & _ & Hres & Hafter & Hcalls)]].
  - lia.
  - congruence.
  - rewrite Hsent in Hres, Hafter. rewrite Hafter.
    split; [exact Hres |]. repeat split. exact Hcalls.
Qed.

(** X2.  The result tells which counter moved: a call that returns true
    incremented the success counter and left the fail counter; a call that
    returns false incremented the fail counter and left the success
    counter (increments modulo 2^32). *)
Theorem publish_result_counts :
  forall (topic payload : cstr) (s : SafePublish C),
    let r := publish topic payload s in
    (result r = true ->
     _successCount (after r) = (_successCount s + 1) mod 2 ^ 32 /\
     _failCount (after r) = _failCount s) /\
    (result r = false ->
     _failCount (after r) = (_failCount s + 1) mod 2 ^ 32 /\
     _successCount (after r) = _successCount s).
Proof.
  intros topic payload s r. subst r.
  destruct (publish_outcomes topic payload s)
    as [(_ & Hres & Hafter & _) | [(_ & _ & Hres & Hafter & _) | (_ & _ & Hres & Hafter & _)]];
    rewrite Hres, Hafter.
  - split; [discriminate | intros _; split; reflexivity].
  - split; [discriminate | intros _; split; reflexivity].
  - destruct (fst (PubSubClient.publish topic payload
                     (snd (PubSubClient.connected (_client s)))));
      split; try discriminate; intros _; split; reflexivity.
Qed.

(** X3.  The calls a [publish] makes on the client: [getBufferSize] first,
    then at most [connected], then at most one [publish], which carries the
    topic and the payload it was given.  There is no retry, and a result of
    true always comes from that one call of the client's [publish]. *)
Theorem publish_call_order :
  forall (topic payload : cstr) (s : SafePublish C),
    let r := publish topic payload s in
    let calls := client_calls (events r) in
    (calls = [CallGetBufferSize] \/
     calls = [CallGetBufferSize; CallConnected] \/
     calls = [CallGetBufferSize; CallConnected; CallPublish topic payload]) /\
    (length (filter is_CallPublish calls) <= 1)%nat /\
    (result r = true ->
     calls = [CallGetBufferSize; CallConnected; CallPublish topic payload]).
Proof.
  intros topic payload s r calls. subst calls r.
  destruct (publish_outcomes topic payload s)
    as [(_ & Hres & _ & Hcalls) | [(_ & _ & Hres & _ & Hcalls) | (_ & _ & Hres & _ & Hcalls)]];
    rewrite Hcalls.
  - split; [left; reflexivity |]. split; [cbn; lia |]. congruence.
  - split; [right; left; reflexivity |]. split; [cbn; lia |]. congruence.
  - split; [right; right; reflexivity |]. split; [cbn; lia |]. reflexivity.
Qed.

(** X4.  No call of [publish] is silent: whatever the way it goes, it
    writes to Serial. *)
Theorem publish_never_silent :
  forall (topic payload : cstr) (s : SafePublish C),
    existsb is_serial (events (publish topic payload s)) = true.
Proof.
  intros topic payload s.
  unfold publish, bind, client_getBufferSize.
  destruct (_ >? _).
  - cbv beta iota zeta delta
      [Serial_println Serial_printf incr_failCount ret events snd app existsb
       is_serial is_client_call negb orb].
    reflexivity.
  - unfold client_connected.
    destruct (PubSubClient.connected (_client s)) as [conn c1].
    destruct conn; cbv beta iota zeta delta [negb].
    + unfold client_publish. cbv beta iota zeta delta [with_client _client].
      destruct (PubSubClient.publish topic payload c1) as [sent c2].
      destruct sent;
        cbv beta iota zeta delta
          [Serial_println Serial_printf incr_failCount incr_successCount ret events
           snd app existsb is_serial is_client_call negb orb];
        reflexivity.
    + cbv beta iota zeta delta
        [Serial_println Serial_printf incr_failCount ret events snd app existsb
         is_serial is_client_call negb orb].
      reflexivity.
Qed.

End PublishOutcomes.

(** The message of the scenario through a connected client whose [publish]
    refuses it. *)
Lemma publish_underlying_failure_witness :
  totalSize topic_a payload_100
    <= PubSubClient.getBufferSize (_client guard_512_refusing) /\
  result (publish topic_a payload_100 guard_512_refusing) = false /\
  _failCount (after (publish topic_a payload_100 guard_512_refusing)) = 1 /\
  _successCount (after (publish topic_a payload_100 guard_512_refusing)) = 0.
Proof.
  assert (H : totalSize topic_a payload_100
              <= PubSubClient.getBufferSize (_client guard_512_refusing))
    by (vm_compute; discriminate).
  destruct (publish_underlying_failure topic_a payload_100 guard_512_refusing
              H eq_refl eq_refl) as (Hres & Hfail & Hsucc & _).
  split; [exact H |]. split; [exact Hres |].
  split; [rewrite Hfail | rewrite Hsucc]; reflexivity.
Defined.

(** ** The sizing rule, continued *)

Lemma pow2_next (j k : Z) : 0 <= j -> 0 <= k -> 2 ^ j < 2 ^ k -> 2 ^ (j + 1) <= 2 ^ k.
Proof.
  intros Hj Hk Hlt.
  apply Z.pow_lt_mono_r_iff in Hlt; [| lia | lia].
  apply Z.pow_le_mono_r; lia.
Qed.

(** X5.  Up to the ceiling, [nextPowerOf2 n] is the least power of two that
    is at least 128 and at least [n]. *)
Theorem nextPowerOf2_least :
  forall n q : Z,
    n <= 8192 ->
    is_power_of_two q -> 128 <= q -> n <= q ->
    n <= nextPowerOf2 n /\ nextPowerOf2 n <= q.
Proof.
  intros n q Hn [k [Hk ->]] Hfloor Hq.
  split; [apply nextPowerOf2_covers, Hn |].
  rewrite nextPowerOf2_eq_table. unfold nextPowerOf2_table.
  destruct (Z.leb_spec n 128); [exact Hfloor |].
  destruct (Z.leb_spec n 256); [apply (pow2_next 7 k); lia |].
  destruct (Z.leb_spec n 512); [apply (pow2_next 8 k); lia |].
  destruct (Z.leb_spec n 1024); [apply (pow2_next 9 k); lia |].
  destruct (Z.leb_spec n 2048); [apply (pow2_next 10 k); lia |].
  destruct (Z.leb_spec n 4096); [apply (pow2_next 11 k); lia |].
  apply (pow2_next 12 k); lia.
Qed.

Lemma nextPowerOf2_least_witness :
  is_power_of_two 4096 /\ 1110 <= nextPowerOf2 1110 /\ nextPowerOf2 1110 <= 4096.
Proof.
  assert (Hp : is_power_of_two 4096) by (exists 12; split; [lia | reflexivity]).
  split; [exact Hp |].
  apply (nextPowerOf2_least 1110 4096); [lia | exact Hp | lia | lia].
Defined.

(** ** The diagnostic of a rejected message *)

Lemma totalSize_in_int (topic payload : cstr) : in_int (totalSize topic payload).
Proof. unfold totalSize, int_add. apply to_int_in_int. Qed.

Section OverflowReport.

Context {C : Type} {client : PubSubClient.Client C}.

(** X6.  The report of a rejected message ends with the advice
    [mqtt_client.setBufferSize(v)], where [v] is the sizing rule applied to
    the total plus 50.  That [v] is large enough for the rejected message
    whenever the total plus 50 is at most 8192, and too small for it
    whenever the total exceeds 8192. *)
Theorem publish_oversize_advice :
  forall (topic payload : cstr) (s : SafePublish C),
    totalSize topic payload > PubSubClient.getBufferSize (_client s) ->
    let r := publish topic payload s in
    let v := nextPowerOf2 (int_add (totalSize topic payload) 50) in
    In (SerialPrintf "  mqtt_client.setBufferSize(%d);\n" [ArgInt v]) (events r) /\
    128 <= v <= 8192 /\
    (totalSize topic payload + 50 <= 8192 -> totalSize topic payload <= v) /\
    (8192 < totalSize topic payload -> v < totalSize topic payload).
Proof.
  intros topic payload s H r v. subst r v. split.
  - unfold totalSize in *.
    unfold publish, bind, client_getBufferSize.
    rewrite to_int_id by apply PubSubClient.getBufferSize_in_int.
    destruct (Z.gtb_spec
                (int_add (int_add (strlen_int topic) (strlen_int payload)) MQTT_OVERHEAD)
                (PubSubClient.getBufferSize (_client s))); [| lia].
    cbv beta iota zeta delta
      [Serial_println Serial_printf incr_failCount ret events snd app].
    do 12 right. left. reflexivity.
  - pose proof (nextPowerOf2_range (int_add (totalSize topic payload) 50)) as Hrange.
    split; [exact Hrange |]. split; [| lia].
    intros Hsmall.
    pose proof (totalSize_in_int topic payload) as Hin.
    unfold int_add. rewrite to_int_id
      by (unfold in_int, INT_MIN, INT_MAX in *; lia).
    pose proof (nextPowerOf2_covers (totalSize topic payload + 50) Hsmall). lia.
Qed.

End OverflowReport.

(** The rejected message of 311 bytes: the advice is 512. *)
Lemma publish_oversize_advice_witness :
  totalSize topic_a payload_300 > PubSubClient.getBufferSize (_client guard_256) /\
  In (SerialPrintf "  mqtt_client.setBufferSize(%d);\n" [ArgInt 512])
     (events (publish topic_a payload_300 guard_256)).
Proof.
  assert (H : totalSize topic_a payload_300
              > PubSubClient.getBufferSize (_client guard_256))
    by (vm_compute; reflexivity).
  split; [exact H |].
  exact (proj1 (publish_oversize_advice topic_a payload_300 guard_256 H)).
Defined.

(** ** autoConfigureBuffer followed by publish *)

(** The client installs a size it is handed, when that size is one a
    [uint16_t] can hold and is not 0. *)
Definition installs_buffer_size {C : Type} (client : PubSubClient.Client C) : Prop :=
  forall (size : Z) (c : C),
    0 < size <= UINT16_MAX ->
    PubSubClient.getBufferSize (snd (PubSubClient.setBufferSize size c)) = size.

Definition payload_8200 : cstr := repeat x78 (Z.to_nat 8200).

Section ConfigureThenPublish.

Context {C : Type} {client : PubSubClient.Client C}.

Lemma autoConfigureBuffer_installed (a b : Z) (s : SafePublish C) :
  installs_buffer_size client ->
  let s1 := after (autoConfigureBuffer a b s) in
  PubSubClient.getBufferSize (_client s1) = nextPowerOf2 (needed a b) /\
  _successCount s1 = _successCount s /\ _failCount s1 = _failCount s.
Proof.
  intros Hinst s1. subst s1.
  destruct (autoConfigureBuffer_run a b s) as (_ & Hafter & _).
  rewrite Hafter. cbn [with_client _client _successCount _failCount].
  split; [| split; reflexivity].
  apply Hinst. pose proof (nextPowerOf2_range (needed a b)). unfold UINT16_MAX. lia.
Qed.

(** X7.  After [autoConfigureBuffer(maxTopicLen, maxPayloadLen)] with
    [maxTopicLen + maxPayloadLen + 10 + 50 <= 8192], on a client that
    installs the size, every message whose topic and payload are within the
    announced lengths passes the size test of [publish] with at least the
    50 bytes of margin to spare: the call goes on to [connected()]. *)
Theorem autoConfigureBuffer_makes_room :
  forall (maxTopicLen maxPayloadLen : Z) (topic payload : cstr) (s : SafePublish C),
    installs_buffer_size client ->
    Z.of_nat (strlen topic) <= maxTopicLen ->
    Z.of_nat (strlen payload) <= maxPayloadLen ->
    maxTopicLen + maxPayloadLen + 10 + 50 <= 8192 ->
    let s1 := after (autoConfigureBuffer maxTopicLen maxPayloadLen s) in
    totalSize topic payload + 50 <= PubSubClient.getBufferSize (_client s1) /\
    In CallConnected (client_calls (events (publish topic payload s1))).
Proof.
  intros a b topic payload s Hinst Ht Hp Hcap s1.
  destruct (autoConfigureBuffer_installed a b s Hinst) as (Hsize & _ & _).
  fold s1 in Hsize.
  assert (Hneeded : needed a b = a + b + 10 + 50)
    by (apply needed_exact; unfold in_int, INT_MIN, INT_MAX; lia).
  assert (Htotal : totalSize topic payload
                   = Z.of_nat (strlen topic) + Z.of_nat (strlen payload) + 10)
    by (apply totalSize_exact; unfold INT_MAX; lia).
  pose proof (nextPowerOf2_covers (needed a b) ltac:(lia)) as Hcov.
  assert (Hroom : totalSize topic payload + 50
                  <= PubSubClient.getBufferSize (_client s1)) by lia.
  split; [exact Hroom |].
  destruct (publish_outcomes topic payload s1)
    as [(Hgt & _) | [(_ & _ & _ & _ & Hcalls) | (_ & _ & _ & _ & Hcalls)]].
  - lia.
  - rewrite Hcalls. right. left. reflexivity.
  - rewrite Hcalls. right. left. reflexivity.
Qed.

(** X8.  The ceiling of the sizing rule cannot be configured away: a
    message whose total exceeds 8192 is rejected by the size test after any
    [autoConfigureBuffer], whatever lengths were announced.  [publish]
    returns false without invoking the client's [publish] and counts a
    failure. *)
Theorem autoConfigureBuffer_ceiling_rejects :
  forall (maxTopicLen maxPayloadLen : Z) (topic payload : cstr) (s : SafePublish C),
    installs_buffer_size client ->
    8192 < Z.of_nat (strlen topic) + Z.of_nat (strlen payload) + 10 <= INT_MAX ->
    let s1 := after (autoConfigureBuffer maxTopicLen maxPayloadLen s) in
    let r := publish topic payload s1 in
    PubSubClient.getBufferSize (_client s1) <= 8192 /\
    result r = false /\
    existsb is_CallPublish (events r) = false /\
    _failCount (after r) = (_failCount s + 1) mod 2 ^ 32 /\
    _successCount (after r) = _successCount s.
Proof.
  intros a b topic payload s Hinst [Hbig Hint] s1 r.
  destruct (autoConfigureBuffer_installed a b s Hinst) as (Hsize & Hsucc & Hfail).
  fold s1 in Hsize, Hsucc, Hfail.
  pose proof (nextPowerOf2_range (needed a b)) as Hrange.
  assert (Htotal : totalSize topic payload
                   = Z.of_nat (strlen topic) + Z.of_nat (strlen payload) + 10)
    by (apply totalSize_exact; exact Hint).
  assert (Hgt : totalSize topic payload > PubSubClient.getBufferSize (_client s1))
    by lia.
  destruct (publish_run_oversize topic payload s1 Hgt) as (Hres & Hafter & Hcalls).
  fold r in Hres, Hafter, Hcalls.
  split; [lia |]. split; [exact Hres |].
  split; [rewrite (existsb_client_calls _ is_CallPublish_client_call), Hcalls;
          reflexivity |].
  rewrite Hafter. cbn [_failCount _successCount]. rewrite Hsucc, Hfail.
  split; reflexivity.
Qed.

End ConfigureThenPublish.

Lemma stub_installs_buffer_size : installs_buffer_size Stub.client.
Proof.
  intros size c Hsize. cbn.
  destruct (Z.eqb_spec size 0) as [-> | _]; [lia |].
  cbn. apply to_uint16_id. lia.
Qed.

(** Configured for topics of 50 and payloads of 1000 bytes, the guard lets
    the 111-byte message through to the connection test. *)
Lemma autoConfigureBuffer_makes_room_witness :
  installs_buffer_size Stub.client /\
  Z.of_nat (strlen topic_a) <= 50 /\
  Z.of_nat (strlen payload_100) <= 1000 /\
  In CallConnected
     (client_calls
        (events (publish topic_a payload_100
                   (after (autoConfigureBuffer 50 1000 guard_256))))).
Proof.
  assert (Ht : Z.of_nat (strlen topic_a) <= 50) by (vm_compute; discriminate).
  assert (Hp : Z.of_nat (strlen payload_100) <= 1000) by (vm_compute; discriminate).
  split; [exact stub_installs_buffer_size |].
  split; [exact Ht |]. split; [exact Hp |].
  apply (autoConfigureBuffer_makes_room 50 1000 topic_a payload_100 guard_256
           stub_installs_buffer_size Ht Hp).
  lia.
Defined.

(** Configured for payloads of 20000 bytes, the guard still rejects one of
    8200 bytes. *)
Lemma autoConfigureBuffer_ceiling_rejects_witness :
  8192 < Z.of_nat (strlen topic_a) + Z.of_nat (strlen payload_8200) + 10 <= INT_MAX /\
  result (publish topic_a payload_8200
            (after (autoConfigureBuffer 1000 20000 guard_256))) = false /\
  _failCount (after (publish topic_a payload_8200
                       (after (autoConfigureBuffer 1000 20000 guard_256)))) = 1.
Proof.
  assert (H : 8192 < Z.of_nat (strlen topic_a) + Z.of_nat (strlen payload_8200) + 10
              <= INT_MAX)
    by (vm_compute; split; [reflexivity | discriminate]).
  destruct (autoConfigureBuffer_ceiling_rejects 1000 20000 topic_a payload_8200
              guard_256 stub_installs_buffer_size H)
    as (_ & Hres & _ & Hfail & _).
  split; [exact H |]. split; [exact Hres |].
  rewrite Hfail. reflexivity.
Defined.

(** ** What the counters count *)

(** The number of publish attempts since the last [resetStats] in a
    sequence of operations, starting from [acc]. *)
Fixpoint attempts_since_reset {S : Type} (ops : list (Op S)) (acc : Z) : Z :=
  match ops with
  | [] => acc
  | op :: rest =>
      attempts_since_reset rest
        (if is_resetStats op then 0
         else if is_publish op then acc + 1
         else acc)
  end.

Section Accounting.

Context {C : Type} {client : PubSubClient.Client C}.
Context {S : Type} {str : WString.String S}.

Lemma attempts_mod (ops : list (Op S)) :
  forall a b : Z,
    a mod 2 ^ 32 = b mod 2 ^ 32 ->
    attempts_since_reset ops a mod 2 ^ 32 = attempts_since_reset ops b mod 2 ^ 32.
Proof.
  induction ops as [| op ops IH]; intros a b Hab; cbn [attempts_since_reset].
  - exact Hab.
  - apply IH. destruct (is_resetStats op); [reflexivity |].
    destruct (is_publish op); [| exact Hab].
    rewrite <- (Zplus_mod_idemp_l a), <- (Zplus_mod_idemp_l b), Hab. reflexivity.
Qed.

(** Either a reset makes the start irrelevant, or the count only grows. *)
Lemma attempts_reset_or_grow (ops : list (Op S)) :
  forall a b : Z,
    attempts_since_reset ops a = attempts_since_reset ops b \/
    (a <= attempts_since_reset ops a /\ b <= attempts_since_reset ops b).
Proof.
  induction ops as [| op ops IH]; intros a b; cbn [attempts_since_reset].
  - right. lia.
  - destruct (is_resetStats op); [left; reflexivity |].
    destruct (is_publish op).
    + destruct (IH (a + 1) (b + 1)) as [Heq | [Ha Hb]]; [left; exact Heq | right; lia].
    + apply IH.
Qed.

Lemma counters_sum_mod (ops : list (Op S)) :
  forall s : SafePublish C,
    let s' := after (run ops s) in
    (_successCount s' + _failCount s') mod 2 ^ 32
    = attempts_since_reset ops (_successCount s + _failCount s) mod 2 ^ 32.
Proof.
  induction ops as [| op ops IH]; intros s s'; subst s'.
  - reflexivity.
  - rewrite (proj1 (run_cons op ops s)). cbn [attempts_since_reset].
    rewrite IH. apply attempts_mod.
    destruct (exec_counters op s) as (Hreset & Hpub & Hother).
    destruct (is_resetStats op) eqn:Er.
    + destruct (Hreset eq_refl) as [-> ->]. reflexivity.
    + destruct (is_publish op) eqn:Ep.
      * unfold ulong_add, to_ulong in Hpub.
        destruct (Hpub eq_refl) as [[-> ->] | [-> ->]].
        -- rewrite Zplus_mod_idemp_l. f_equal. lia.
        -- rewrite Zplus_mod_idemp_r. f_equal. lia.
      * destruct (Hother eq_refl eq_refl) as [-> ->]. reflexivity.
Qed.

Lemma counters_sum_exact (ops : list (Op S)) :
  forall s : SafePublish C,
    counters_ok s ->
    attempts_since_reset ops (_successCount s + _failCount s) < 2 ^ 32 ->
    let s' := after (run ops s) in
    _successCount s' + _failCount s'
    = attempts_since_reset ops (_successCount s + _failCount s).
Proof.
  induction ops as [| op ops IH]; intros s Hok Hlt s'; subst s'.
  - reflexivity.
  - rewrite (proj1 (run_cons op ops s)).
    cbn [attempts_since_reset] in Hlt |- *.
    pose proof (exec_counters_ok op s Hok) as Hok1.
    destruct (exec_counters op s) as (Hreset & Hpub & Hother).
    set (s1 := after (exec op s)) in *.
    pose proof (IH s1 Hok1) as IH1. cbv zeta in IH1.
    destruct (is_resetStats op) eqn:Er.
    + destruct (Hreset eq_refl) as [Hs Hf].
      rewrite Hs, Hf in IH1. apply IH1. exact Hlt.
    + destruct (is_publish op) eqn:Ep.
      * destruct (attempts_reset_or_grow ops
                    (_successCount s + _failCount s + 1)
                    (_successCount s1 + _failCount s1)) as [Heq | [Hgrow _]].
        -- rewrite Heq in Hlt |- *. apply IH1. exact Hlt.
        -- assert (Hstep : _successCount s1 + _failCount s1
                           = _successCount s + _failCount s + 1).
           { destruct Hok as [Hs Hf]. unfold in_ulong, ULONG_MAX in Hs, Hf.
             unfold ulong_add, to_ulong in Hpub.
             destruct (Hpub eq_refl) as [[-> ->] | [-> ->]];
               rewrite Z.mod_small; lia. }
           rewrite Hstep in IH1. apply IH1. exact Hlt.
      * destruct (Hother eq_refl eq_refl) as [Hs Hf].
        rewrite Hs, Hf in IH1. apply IH1. exact Hlt.
Qed.

(** X9.  From a fresh guard, after any sequence of operations, the sum of
    the two counters is the number of publish attempts (of either overload)
    since the last [resetStats], modulo 2^32; and it is that number itself
    as long as it is below 2^32. *)
Theorem counters_count_attempts :
  forall (c : C) (ops : list (Op S)),
    let s' := after (run ops (new c)) in
    (_successCount s' + _failCount s') mod 2 ^ 32
    = attempts_since_reset ops 0 mod 2 ^ 32 /\
    (attempts_since_reset ops 0 < 2 ^ 32 ->
     _successCount s' + _failCount s' = attempts_since_reset ops 0).
Proof.
  intros c ops s'. subst s'. split.
  - apply (counters_sum_mod ops (new c)).
  - intros Hlt. apply (counters_sum_exact ops (new c)).
    + split; apply in_ulong_0.
    + exact Hlt.
Qed.

(** X10.  [printStats] only reports: it leaves the counters and the client
    as they were and makes no call on the client. *)
Theorem printStats_read_only :
  forall s : SafePublish C,
    after (printStats s) = s /\
    client_calls (events (printStats s)) = [] /\
    existsb is_serial (events (printStats s)) = true.
Proof.
  intros s. destruct (printStats_run s) as (Hafter & Hcalls & _).
  split; [exact Hafter |]. split; [exact Hcalls |].
  unfold printStats, bind, read.
  cbv beta iota zeta delta [Serial_println Serial_printf].
  destruct (_failCount s >? 0);
    cbv beta iota zeta delta
      [Serial_printf ret events snd app existsb is_serial is_client_call negb orb];
    reflexivity.
Qed.

End Accounting.

(** Two rejected messages, a reset, then an accepted and a rejected one:
    two attempts are counted. *)
Lemma counters_count_attempts_witness :
  attempts_since_reset [op_reject; op_reject; OpResetStats; op_accept; op_reject] 0 = 2 /\
  _successCount (after (run [op_reject; op_reject; OpResetStats; op_accept; op_reject]
                            guard_256))
  + _failCount (after (run [op_reject; op_reject; OpResetStats; op_accept; op_reject]
                           guard_256)) = 2.
Proof.
  split; [reflexivity |].
  apply (proj2 (counters_count_attempts (Stub.mk 256 true true)
                  [op_reject; op_reject; OpResetStats; op_accept; op_reject])).
  vm_compute. reflexivity.
Defined.

(** ** The size handed to the client *)

Section ConfiguredSize.

Context {C : Type} {client : PubSubClient.Client C}.

(** X11.  Whatever the two arguments (negative ones and sums that wrap
    included), [autoConfigureBuffer] hands the client a power of two
    between 128 and 8192: never 0, and never a value that the conversion to
    [uint16_t] of [setBufferSize] would alter.  That call is its only
    call on the client, and the value handed over is the one returned. *)
Theorem autoConfigureBuffer_size_in_range :
  forall (maxTopicLen maxPayloadLen : Z) (s : SafePublish C),
    let r := autoConfigureBuffer maxTopicLen maxPayloadLen s in
    exists v : Z,
      client_calls (events r) = [CallSetBufferSize v] /\
      result r = v /\
      128 <= v <= 8192 /\
      is_power_of_two v /\
      to_uint16 v = v.
Proof.
  intros a b s r. subst r.
  destruct (autoConfigureBuffer_run a b s) as (Hres & _ & Hev).
  exists (nextPowerOf2 (needed a b)).
  split; [rewrite Hev; reflexivity |].
  split; [exact Hres |].
  split; [apply nextPowerOf2_range |].
  split; [apply nextPowerOf2_power | apply nextPowerOf2_fits_uint16].
Qed.

End ConfiguredSize.
